(** * The RPC recognizer of proto-gen-md-diagrams: [pkg/proto/rpc_visitor.go]

    A shallow embedding of [RpcVisitor] (the declaration matcher, the
    parameter-list parser and the block scanner) together with the parts
    of Go's [strings] and [regexp] packages that it calls, followed by the
    properties of the recognizer.

    Go strings are byte sequences; they are modelled by [string], whose
    characters are the 256 values of [ascii].  A Go [int] is modelled by
    [Z]: every integer computed here is bounded by the length of a line. *)

From Stdlib Require Import Strings.String Strings.Ascii Lists.List ZArith.ZArith
  Arith.PeanoNat Bool.Bool micromega.Lia.
Import ListNotations.

Local Open Scope string_scope.
Local Open Scope Z_scope.

Set Implicit Arguments.

(* ================================================================== *)
(** ** Outcomes of running Go code

    A Go function either returns or panics.  [OutOfFuel] is not a Go
    behaviour: it is the answer of a recursive model whose recursion
    budget was too small (see [Visit]). *)

Inductive outcome (A : Type) : Type :=
| Returned (a : A)
| Panicked (msg : string)
| OutOfFuel.

Arguments Returned {A} a.
Arguments Panicked {A} msg.
Arguments OutOfFuel {A}.

Definition bind {A B : Type} (m : outcome A) (f : A -> outcome B) : outcome B :=
  match m with
  | Returned a => f a
  | Panicked msg => Panicked msg
  | OutOfFuel => OutOfFuel
  end.

Notation "x <- m ;; k" := (bind m (fun x => k))
  (at level 61, m at next level, right associativity).
Notation "' p <- m ;; k" := (bind m (fun p => k))
  (at level 61, p pattern, m at next level, right associativity).

(** [s[lo:hi]] and [s[lo:]]: Go checks [0 <= lo <= hi <= len(s)] at run
    time and panics otherwise. *)
Definition slice (s : string) (lo hi : Z) : outcome string :=
  if (0 <=? lo) && (lo <=? hi) && (hi <=? Z.of_nat (String.length s))
  then Returned (substring (Z.to_nat lo) (Z.to_nat (hi - lo)) s)
  else Panicked "slice bounds out of range".

Definition sliceFrom (s : string) (lo : Z) : outcome string :=
  slice s lo (Z.of_nat (String.length s)).

(** [values[i]] on a slice of strings. *)
Definition at_index (values : list string) (i : nat) : outcome string :=
  match nth_error values i with
  | Some v => Returned v
  | None => Panicked "index out of range"
  end.

(* ================================================================== *)
(** ** Package [strings] *)

Module strings.

Definition HasPrefix (s prefix : string) : bool := String.prefix prefix s.

(** [indexFrom pos substr s]: index of the first instance of [substr]
    in [s], counted from [pos], or [-1]. *)
Fixpoint indexFrom (pos : nat) (substr s : string) {struct s} : Z :=
  if HasPrefix s substr then Z.of_nat pos
  else match s with
       | EmptyString => -1
       | String _ s' => indexFrom (S pos) substr s'
       end.

Definition Index (s substr : string) : Z := indexFrom 0 substr s.

Definition Contains (s substr : string) : bool := 0 <=? Index s substr.

(** [Count] counts the non-overlapping instances of a non-empty
    [substr]; [skip] is the number of bytes of the instance just
    counted that are still to be passed over. *)
Fixpoint countFrom (substr : string) (skip : nat) (s : string) {struct s} : Z :=
  match s with
  | EmptyString => 0
  | String _ s' =>
      match skip with
      | S k => countFrom substr k s'
      | O => if HasPrefix s substr
             then 1 + countFrom substr (String.length substr - 1)%nat s'
             else countFrom substr 0 s'
      end
  end.

Definition Count (s substr : string) : Z := countFrom substr 0 s.

Definition push (a : ascii) (pieces : list string) : list string :=
  match pieces with
  | piece :: rest => String a piece :: rest
  | [] => [String a EmptyString]
  end.

(** [Split] cuts [s] at every non-overlapping instance of a non-empty
    [sep], leftmost first; the result has one more piece than there
    are instances, so it is never empty. *)
Fixpoint splitFrom (sep : string) (skip : nat) (s : string) {struct s} : list string :=
  match s with
  | EmptyString => [EmptyString]
  | String a s' =>
      match skip with
      | S k => splitFrom sep k s'
      | O => if HasPrefix s sep
             then EmptyString :: splitFrom sep (String.length sep - 1)%nat s'
             else push a (splitFrom sep 0 s')
      end
  end.

Definition Split (s sep : string) : list string := splitFrom sep 0 s.

(** *** [TrimSpace]

    [TrimSpace] removes leading and trailing white space "as defined
    by Unicode": the runes U+0009..U+000D, U+0020, U+0085, U+00A0,
    U+1680, U+2000..U+200A, U+2028, U+2029, U+202F, U+205F, U+3000.
    On the bytes of the string these are the following UTF-8
    sequences; a byte that does not start one of them (an invalid
    encoding included, which decodes to U+FFFD) stops the trimming. *)

Definition code (a : ascii) : N := N_of_ascii a.

Definition asciiSpace (a : ascii) : bool :=
  ((9 <=? code a) && (code a <=? 13) || (code a =? 32))%N.

Definition space2 (a b : ascii) : bool :=
  ((code a =? 194) && ((code b =? 133) || (code b =? 160)))%N.

Definition space3 (a b c : ascii) : bool :=
  (   (code a =? 225) && (code b =? 154) && (code c =? 128)
   || (code a =? 226) && (code b =? 128)
        && ((128 <=? code c) && (code c <=? 138)
            || (code c =? 168) || (code c =? 169) || (code c =? 175))
   || (code a =? 226) && (code b =? 129) && (code c =? 159)
   || (code a =? 227) && (code b =? 128) && (code c =? 128))%N.

Fixpoint trimLeft (s : string) : string :=
  match s with
  | EmptyString => EmptyString
  | String a s1 =>
      if asciiSpace a then trimLeft s1
      else match s1 with
           | EmptyString => s
           | String b s2 =>
               if space2 a b then trimLeft s2
               else match s2 with
                    | EmptyString => s
                    | String c s3 => if space3 a b c then trimLeft s3 else s
                    end
           end
  end.

Fixpoint rev (s acc : string) : string :=
  match s with
  | EmptyString => acc
  | String a s' => rev s' (String a acc)
  end.

(** The same on the reversed string: the last rune is looked for from
    the end, so the sequences are read backwards. *)
Fixpoint trimLeftRev (s : string) : string :=
  match s with
  | EmptyString => EmptyString
  | String a s1 =>
      if asciiSpace a then trimLeftRev s1
      else match s1 with
           | EmptyString => s
           | String b s2 =>
               if space2 b a then trimLeftRev s2
               else match s2 with
                    | EmptyString => s
                    | String c s3 => if space3 c b a then trimLeftRev s3 else s
                    end
           end
  end.

Definition trimRight (s : string) : string :=
  rev (trimLeftRev (rev s EmptyString)) EmptyString.

Definition TrimSpace (s : string) : string := trimRight (trimLeft s).

End strings.

(* ================================================================== *)
(** ** Package [regexp]

    The syntax tree of the patterns that [RpcLinePattern] is built from:
    literal text, the greedy repetitions [x*] and [x+] of a character
    class [x], numbered capturing groups and concatenation.  Every class
    of the pattern ([\s], [\w], [[^)]] and [.]) holds or fails on a
    single byte, and no byte of a multi-byte rune satisfies [\s] or
    starts the literal, so matching bytes gives the submatches that Go
    finds on runes. *)

Module regexp.

Inductive Regexp : Type :=
| Lit (text : string)
| Star (cls : ascii -> bool)
| Plus (cls : ascii -> bool)
| Cap (n : nat) (r : Regexp)
| Cat (r1 r2 : Regexp).

(** A submatch is a pair of byte offsets [(start, end)] in the
    searched text, as in [FindStringSubmatchIndex]. *)
Definition span : Type := (nat * nat)%type.

Fixpoint setCap (n : nat) (v : span) (caps : list span) : list span :=
  match n, caps with
  | O, _ :: rest => v :: rest
  | S k, c :: rest => c :: setCap k v rest
  | _, [] => []
  end.

Fixpoint NumSubexp (r : Regexp) : nat :=
  match r with
  | Cap n r' => Nat.max n (NumSubexp r')
  | Cat r1 r2 => Nat.max (NumSubexp r1) (NumSubexp r2)
  | _ => O
  end.

Fixpoint dropPrefix (text s : string) : option string :=
  match text, s with
  | EmptyString, _ => Some s
  | String a text', String b s' =>
      if Ascii.eqb a b then dropPrefix text' s' else None
  | String _ _, EmptyString => None
  end.

Section Matcher.
Context {A : Type}.

(** Greedy repetition: the longest run of [cls] first, then shorter
    ones, until the rest of the pattern [k] succeeds. *)
Fixpoint star (cls : ascii -> bool) (s : string) (pos : nat)
         (k : string -> nat -> option A) : option A :=
  match s with
  | String a s' =>
      if cls a
      then match star cls s' (S pos) k with
           | Some res => Some res
           | None => k s pos
           end
      else k s pos
  | EmptyString => k s pos
  end.

(** [run r s pos caps k]: match [r] at offset [pos], where [s] is the
    text from [pos] on, and continue with [k]; alternatives are tried
    in the order of preference of a leftmost-first matcher. *)
Fixpoint run (r : Regexp) (s : string) (pos : nat) (caps : list span)
         (k : string -> nat -> list span -> option A) : option A :=
  match r with
  | Lit text =>
      match dropPrefix text s with
      | Some s' => k s' (pos + String.length text)%nat caps
      | None => None
      end
  | Star cls => star cls s pos (fun s' pos' => k s' pos' caps)
  | Plus cls =>
      match s with
      | String a s' =>
          if cls a then star cls s' (S pos) (fun s'' pos' => k s'' pos' caps)
          else None
      | EmptyString => None
      end
  | Cap n r' =>
      run r' s pos caps (fun s' pos' caps' => k s' pos' (setCap n (pos, pos') caps'))
  | Cat r1 r2 =>
      run r1 s pos caps (fun s' pos' caps' => run r2 s' pos' caps' k)
  end.
End Matcher.

(** The match at [pos] of the whole pattern; group 0 is the match. *)
Definition matchAt (r : Regexp) (s : string) (pos : nat) : option (list span) :=
  run r s pos (repeat (O, O) (S (NumSubexp r)))
      (fun _ pos' caps => Some (setCap 0 (pos, pos') caps)).

(** The leftmost match: the pattern is not anchored, every offset of
    the text is tried in turn. *)
Fixpoint findFrom (r : Regexp) (s : string) (pos : nat) {struct s} : option (list span) :=
  match matchAt r s pos with
  | Some caps => Some caps
  | None =>
      match s with
      | EmptyString => None
      | String _ s' => findFrom r s' (S pos)
      end
  end.

Definition FindStringSubmatchIndex (r : Regexp) (s : string) : option (list span) :=
  findFrom r s 0.

Definition MatchString (r : Regexp) (s : string) : bool :=
  match FindStringSubmatchIndex r s with
  | Some _ => true
  | None => false
  end.

(** [FindStringSubmatch] returns the text of the match and of the
    groups, or the nil slice ([[]]) when there is no match. *)
Definition FindStringSubmatch (r : Regexp) (s : string) : list string :=
  match FindStringSubmatchIndex r s with
  | Some caps => map (fun c : span => substring (fst c) (snd c - fst c) s) caps
  | None => []
  end.

(** [all cls w]: every character of [w] is in the class [cls]. *)
Fixpoint all (cls : ascii -> bool) (w : string) : bool :=
  match w with
  | EmptyString => true
  | String a w' => cls a && all cls w'
  end.

(** What a pattern matches, apart from any order of preference:
    [denotes r s s'] when [r] matches a prefix of [s] and [s'] is what
    follows it. *)
Fixpoint denotes (r : Regexp) (s s' : string) : Prop :=
  match r with
  | Lit text => s = text ++ s'
  | Star cls => exists w, s = w ++ s' /\ all cls w = true
  | Plus cls => exists w, s = w ++ s' /\ all cls w = true /\ w <> EmptyString
  | Cap _ r' => denotes r' s s'
  | Cat r1 r2 => exists m, denotes r1 s m /\ denotes r2 m s'
  end.

(** The classes of Go's syntax (RE2, without flags). *)
Definition code (a : ascii) : N := N_of_ascii a.

(** [\s] is [[\t\n\f\r ]]. *)
Definition whitespace (a : ascii) : bool :=
  ((code a =? 9) || (code a =? 10) || (code a =? 12) || (code a =? 13)
   || (code a =? 32))%N.

(** [\w] is [[0-9A-Za-z_]]. *)
Definition word (a : ascii) : bool :=
  ((48 <=? code a) && (code a <=? 57) || (65 <=? code a) && (code a <=? 90)
   || (97 <=? code a) && (code a <=? 122) || (code a =? 95))%N.

(** [[^)]]. *)
Definition notCloseParen (a : ascii) : bool := negb (code a =? 41)%N.

(** [.] is any character but the line feed. *)
Definition anyChar (a : ascii) : bool := negb (code a =? 10)%N.

End regexp.

(* ================================================================== *)
(** ** The entities of package [proto] that the recognizer builds

    [rpc_visitor.go] uses these declarations of its package without
    containing them. *)

(** Modelled from the spec: the classification of a line's terminator,
    "one of {None, Semicolon, OpenBrace, CloseBrace}". *)
Inductive TokenKind : Type := NoToken | Semicolon | OpenBrace | CloseBrace.

(** The comparison [==] of two tokens. *)
Definition token_eqb (a b : TokenKind) : bool :=
  match a, b with
  | NoToken, NoToken | Semicolon, Semicolon
  | OpenBrace, OpenBrace | CloseBrace, CloseBrace => true
  | _, _ => false
  end.

(** Modelled from the spec: the constant [Comma], at which an argument
    list is split. *)
Definition Comma : string := ",".

(** Modelled from the spec: the constant [Space], the whitespace
    boundary after the keyword [stream]. *)
Definition Space : string := " ".

(** Modelled from the spec: the constant [Period], the separator of a
    scope path. *)
Definition Period : string := ".".

(** Modelled from the spec: a [Line] carries its text, an optional
    trailing comment and the token of its terminator. *)
Record Line : Type := NewLine {
  Syntax : string;
  Comment : option string;
  Token : TokenKind
}.

(** Modelled from the spec: a parameter ([Parameter] in the source, a
    reserved word here) has a streaming flag and a type name. *)
Record RpcParameter : Type := NewParameter {
  Streaming : bool;
  TypeName : string
}.

(** Modelled from the spec: an [RpcOption] has a scope path, a name, an
    index (always empty) and a body. *)
Record RpcOption : Type := NewRpcOption {
  ScopePath : string;
  OptionName : string;
  OptionIndex : string;
  OptionBody : string
}.

(** Modelled from the spec: an [Rpc] has its namespace, name and
    comment, and the ordered sequences of its input parameters, output
    parameters and options. *)
Record Rpc : Type := MkRpc {
  Namespace : string;
  Name : string;
  RpcComment : option string;
  InputParameters : list RpcParameter;
  ReturnParameters : list RpcParameter;
  Options : list RpcOption
}.

(** Modelled from the spec: [NewRpc] makes an Rpc of the namespace, the
    name and the comment that has no parameter and no option yet. *)
Definition NewRpc (namespace name : string) (comment : option string) : Rpc :=
  MkRpc namespace name comment [] [] [].

(** Modelled from the spec: [AddInputParameter] appends to the input
    parameters. *)
Definition AddInputParameter (rpc : Rpc) (p : RpcParameter) : Rpc :=
  MkRpc (Namespace rpc) (Name rpc) (RpcComment rpc)
        (InputParameters rpc ++ [p]) (ReturnParameters rpc) (Options rpc).

(** Modelled from the spec: [AddReturnParameter] appends to the output
    parameters. *)
Definition AddReturnParameter (rpc : Rpc) (p : RpcParameter) : Rpc :=
  MkRpc (Namespace rpc) (Name rpc) (RpcComment rpc)
        (InputParameters rpc) (ReturnParameters rpc ++ [p]) (Options rpc).

(** Modelled from the spec: [AddRpcOption] appends to the options. *)
Definition AddRpcOption (rpc : Rpc) (o : RpcOption) : Rpc :=
  MkRpc (Namespace rpc) (Name rpc) (RpcComment rpc)
        (InputParameters rpc) (ReturnParameters rpc) (Options rpc ++ [o]).

(** Modelled from the spec: [Join] concatenates its values with the
    separator between them, so that [Join Period [namespace; name]] is
    [namespace + "." + name]. *)
Definition Join (sep : string) (values : list string) : string :=
  String.concat sep values.

(** Modelled from the spec: the line source.  It holds the lines that
    are still to be pulled; [Scan] tells whether there is one and
    [ReadLine] pulls it.  The recognizer and its delegate advance the
    same source, so the source is threaded through every call. *)
Definition Scanner : Type := list Line.

(** Modelled from the spec: [Scan], the signal that more input is
    available. *)
Definition Scan (scanner : Scanner) : bool :=
  match scanner with [] => false | _ :: _ => true end.

(** Modelled from the spec: [ReadLine], the pull of the next line. *)
Definition ReadLine (scanner : Scanner) : option (Line * Scanner) :=
  match scanner with [] => None | line :: rest => Some (line, rest) end.

(* ================================================================== *)
(** ** [rpc_visitor.go] *)

Import regexp.

(** The syntax tree of the pattern, whose pieces are, in order:
    rpc, \s+, (\w+), \s*, \(, \s*, ([^)]+), \s*, \), \s+, returns, \s*,
    \(, \s*, ([^)]+), \s*, \) and a last group that holds any number of
    [.]; the groups are numbered 1 to 4. *)
Definition RpcLinePattern : Regexp :=
  Cat (Lit "rpc") (Cat (Plus whitespace) (Cat (Cap 1 (Plus word))
  (Cat (Star whitespace) (Cat (Lit "(") (Cat (Star whitespace)
  (Cat (Cap 2 (Plus notCloseParen)) (Cat (Star whitespace) (Cat (Lit ")")
  (Cat (Plus whitespace) (Cat (Lit "returns") (Cat (Star whitespace)
  (Cat (Lit "(") (Cat (Star whitespace) (Cat (Cap 3 (Plus notCloseParen))
  (Cat (Star whitespace) (Cat (Lit ")") (Cap 4 (Star anyChar)))))))))))))))))).

(** The field [Visitors] of the struct is not read by this file. *)
Record RpcVisitor : Type := { RpcLineMatcher : Regexp }.

Definition NewRpcVisitor : RpcVisitor := {| RpcLineMatcher := RpcLinePattern |}.

Definition CanVisit (rv : RpcVisitor) (line : Line) : bool :=
  MatchString (RpcLineMatcher rv) (Syntax line).

(** The body of the loops of [ParseInArgs] and [ParseReturnArgs]: the
    parameter that one segment [i] of the argument list stands for. *)
Definition parseArg (i : string) : outcome RpcParameter :=
  if strings.HasPrefix i "stream"
  then rest <- sliceFrom i (strings.Index i Space) ;;
       Returned (NewParameter true (strings.TrimSpace rest))
  else Returned (NewParameter false (strings.TrimSpace i)).

Fixpoint parseArgs (add : Rpc -> RpcParameter -> Rpc) (args : list string) (rpc : Rpc)
  : outcome Rpc :=
  match args with
  | [] => Returned rpc
  | i :: rest => p <- parseArg i ;; parseArgs add rest (add rpc p)
  end.

Definition ParseInArgs (values : list string) (rpc : Rpc) : outcome Rpc :=
  v <- at_index values 2 ;;
  parseArgs AddInputParameter (strings.Split v Comma) rpc.

Definition ParseReturnArgs (values : list string) (rpc : Rpc) : outcome Rpc :=
  v <- at_index values 3 ;;
  parseArgs AddReturnParameter (strings.Split v Comma) rpc.

(** The state in which the accumulation of an option starts (lines 84
    to 96): the name between the parentheses, the body found after the
    [=] and the balance of its braces. *)
Record OptionStart : Type := {
  optionName : string;
  optionBody : string;
  braceCount : Z
}.

Definition braces (s : string) : Z := strings.Count s "{" - strings.Count s "}".

Definition optionStart (line : Line) : outcome OptionStart :=
  name <- slice (Syntax line) (strings.Index (Syntax line) "(" + 1)
                              (strings.Index (Syntax line) ")") ;;
  if strings.Contains (Syntax line) "="
  then
    let parts := strings.Split (Syntax line) "=" in
    if (1 <? Z.of_nat (List.length parts))
    then
      body <- at_index parts 1 ;;
      let body := strings.TrimSpace body in
      Returned {| optionName := name; optionBody := body; braceCount := 0 + braces body |}
    else Returned {| optionName := name; optionBody := ""; braceCount := 0 |}
  else Returned {| optionName := name; optionBody := ""; braceCount := 0 |}.

(** Lines 103 to 105. *)
Definition startsDeclaration (oBody : Line) : bool :=
  strings.HasPrefix (strings.TrimSpace (Syntax oBody)) "rpc"
  || strings.HasPrefix (strings.TrimSpace (Syntax oBody)) "message"
  || strings.HasPrefix (strings.TrimSpace (Syntax oBody)) "service".

(** Lines 107 to 113 and 138 to 144: the accumulated option is added to
    the Rpc when its body is not blank. *)
Definition flushOption (namespace : string) (out : Rpc) (name body : string) : Rpc :=
  if (0 <? Z.of_nat (String.length (strings.TrimSpace body)))
  then AddRpcOption out (NewRpcOption (Join Period [namespace; Name out]) name "" body)
  else out.

Section Block.
(** [rv.Visit] of the recognizer built at line 115. *)
Variable delegate : Scanner -> Line -> string -> outcome (Rpc * Scanner).
Variable namespace : string.

(** [scanBlock] is the loop of lines 74 to 147 and [accumulate] the
    loop of lines 99 to 137 with the statements that follow it.  Both
    take the source at the test [scanner.Scan()]: [[]] is a source
    that has no line left, [line :: rest] one whose next [ReadLine]
    gives [line].  Once [Scan] has been false it stays false, so the
    [continue] of line 145 on an exhausted source leaves the outer
    loop too. *)
Fixpoint scanBlock (out : Rpc) (scanner : Scanner) {struct scanner}
  : outcome (Rpc * Scanner) :=
  match scanner with
  | [] => Returned (out, [])
  | line :: scanner' =>
      if token_eqb (Token line) CloseBrace then Returned (out, scanner')
      else if strings.HasPrefix (Syntax line) "option"
      then o <- optionStart line ;;
           accumulate out (optionName o) (optionBody o) (braceCount o) scanner'
      else scanBlock out scanner'
  end
with accumulate (out : Rpc) (name body : string) (count : Z) (scanner : Scanner)
  {struct scanner} : outcome (Rpc * Scanner) :=
  match scanner with
  | [] => Returned (flushOption namespace out name body, [])
  | oBody :: scanner' =>
      if startsDeclaration oBody
      then
        let out' := flushOption namespace out name body in
        if CanVisit NewRpcVisitor oBody
        then ' (_, scanner'') <- delegate scanner' oBody namespace ;;
             Returned (out', scanner'')
        else Returned (out', scanner')
      else if (strings.TrimSpace (Syntax oBody) =? ";")%string
      then scanBlock (flushOption namespace out name body) scanner'
      else
        let body' := body ++ Syntax oBody in
        let count' := count + strings.Count (Syntax oBody) "{"
                            - strings.Count (Syntax oBody) "}" in
        if token_eqb (Token oBody) Semicolon && (count' =? 0)
        then scanBlock (flushOption namespace out name body') scanner'
        else accumulate out name body' count' scanner'
  end.
End Block.

(** [Visit].  The recursion of line 117 is on a source that this call
    has advanced, not on a part of the arguments, so the model takes a
    bound [fuel] on the depth of the recursion; [Visit_fuel] shows that
    one more than the number of lines of the source is always enough.
    [Log.Debugf] has no effect on the result. *)
Fixpoint Visit (fuel : nat) (rv : RpcVisitor) (scanner : Scanner) (in_ : Line)
         (namespace : string) {struct fuel} : outcome (Rpc * Scanner) :=
  match fuel with
  | O => OutOfFuel
  | S fuel' =>
      let values := FindStringSubmatch (RpcLineMatcher rv) (Syntax in_) in
      name <- at_index values 1 ;;
      let out := NewRpc namespace name (Comment in_) in
      out <- ParseInArgs values out ;;
      out <- ParseReturnArgs values out ;;
      if token_eqb (Token in_) Semicolon
      then Returned (out, scanner)
      else scanBlock (Visit fuel' NewRpcVisitor) namespace out scanner
  end.

(** A line without a comment. *)
Definition line (syntax : string) (token : TokenKind) : Line :=
  NewLine syntax None token.


(** The declarations that the matcher is meant for, in the words of the
    specification: somewhere in the text stands [rpc], a name, a
    parenthesized input clause, [returns] and a parenthesized output
    clause, and neither clause is empty.  A clause ends at the first
    closing parenthesis. *)
Definition blank (w : string) : Prop := all whitespace w = true.

Definition clause (w : string) : Prop :=
  all notCloseParen w = true /\ w <> EmptyString.

Definition declares (s : string) : Prop :=
  exists before sp1 name sp2 ins sp3 sp4 outs after,
    s = before ++ "rpc" ++ sp1 ++ name ++ sp2 ++ "(" ++ ins ++ ")"
               ++ sp3 ++ "returns" ++ sp4 ++ "(" ++ outs ++ ")" ++ after
    /\ (blank sp1 /\ sp1 <> EmptyString)
    /\ (all word name = true /\ name <> EmptyString)
    /\ blank sp2 /\ clause ins
    /\ (blank sp3 /\ sp3 <> EmptyString)
    /\ blank sp4 /\ clause outs.

(** [extends namespace out r]: [r] is [out] with options added at the
    end, each scoped to the Rpc. *)
Definition extends (namespace : string) (out r : Rpc) : Prop :=
  Namespace r = Namespace out /\ Name r = Name out
  /\ RpcComment r = RpcComment out
  /\ InputParameters r = InputParameters out
  /\ ReturnParameters r = ReturnParameters out
  /\ exists added,
       Options r = (Options out ++ added)%list
       /\ Forall (fun o => ScopePath o = namespace ++ "." ++ Name out) added.

(** Lines 64 to 67 of [Visit]: the Rpc that the matched line declares,
    before any line is pulled. *)
Definition declaration (rv : RpcVisitor) (in_ : Line) (namespace : string) : outcome Rpc :=
  let values := FindStringSubmatch (RpcLineMatcher rv) (Syntax in_) in
  name <- at_index values 1 ;;
  out <- ParseInArgs values (NewRpc namespace name (Comment in_)) ;;
  ParseReturnArgs values out.

(** The lines that the outer loop passes over. *)
Definition idle (l : Line) : bool :=
  negb (token_eqb (Token l) CloseBrace) && negb (strings.HasPrefix (Syntax l) "option").

(** The lines whose text the inner loop appends to the option body. *)
Definition appended (l : Line) : bool :=
  negb (startsDeclaration l) && negb (strings.TrimSpace (Syntax l) =? ";")%string.

(** The test of line 134, on the brace balance [count] before the line. *)
Definition completes (count : Z) (l : Line) : bool :=
  token_eqb (Token l) Semicolon && (count + braces (Syntax l) =? 0).

(** [accumulating count ls]: from the balance [count], every line of
    [ls] is appended and none of them completes the option. *)
Fixpoint accumulating (count : Z) (ls : list Line) : bool :=
  match ls with
  | [] => true
  | l :: ls' =>
      appended l && negb (completes count l)
      && accumulating (count + braces (Syntax l)) ls'
  end.

Fixpoint balance (count : Z) (ls : list Line) : Z :=
  match ls with
  | [] => count
  | l :: ls' => balance (count + braces (Syntax l)) ls'
  end.

Fixpoint text (ls : list Line) : string :=
  match ls with
  | [] => EmptyString
  | l :: ls' => Syntax l ++ text ls'
  end.

(** The double quote, for the texts that contain one. *)
Definition quote : string := String (ascii_of_nat 34) EmptyString.

(** The horizontal tab. *)
Definition tab : string := String (ascii_of_nat 9) EmptyString.

(** The declaration of an Rpc named [name] with a block, whose one
    input is the type [A] after the keyword [stream] and the blanks
    [sep], and whose one output is the type [B]. *)
Definition streamDeclaration (name sep A B : string) : string :=
  "rpc " ++ name ++ "(" ++ ("stream" ++ sep ++ A) ++ ") returns (" ++ B ++ ") {".

(** The block of an Rpc that holds one option written over four lines,
    with the line that closes the block. *)
Definition httpOption : Scanner :=
  [ line "option (google.api.http) = {" OpenBrace;
    line ("post: " ++ quote ++ "/v1/x" ++ quote) NoToken;
    line ("body: " ++ quote ++ "*" ++ quote) NoToken;
    line "};" Semicolon;
    line "}" CloseBrace ].

Definition httpBody : string :=
  "{" ++ "post: " ++ quote ++ "/v1/x" ++ quote ++ "body: " ++ quote ++ "*" ++ quote ++ "};".

(** [refines m m']: the outcome [m'], computed with more fuel, is [m]
    unless [m] ran out of fuel. *)
Definition refines {A : Type} (m m' : outcome A) : Prop :=
  m <> OutOfFuel -> m' = m.

(** [stops cls s]: a run of [cls] cannot go on into [s]. *)
Definition stops (cls : ascii -> bool) (s : string) : bool :=
  match s with
  | EmptyString => true
  | String a _ => negb (cls a)
  end.

(** The length of the longest prefix of [s] whose characters are in [cls]. *)
Fixpoint leading (cls : ascii -> bool) (s : string) : nat :=
  match s with
  | EmptyString => O
  | String a s' => if cls a then S (leading cls s') else O
  end.

(** The characters of a type name: those of a word, and the period of a
    qualified name. *)
Definition typeChar (a : ascii) : bool := word a || (code a =? 46)%N.

Definition typeName (t : string) : Prop :=
  all typeChar t = true /\ t <> EmptyString.

(** [lacks c s]: the character [c] does not occur in [s]. *)
Definition lacks (c : ascii) (s : string) : bool :=
  all (fun a => negb (Ascii.eqb c a)) s.

(** What a match records: [derives r w pos caps caps'] when [r] matches
    the text [w] found at the offset [pos] and turns the submatches
    [caps] into [caps']. *)
Fixpoint derives (r : Regexp) (w : string) (pos : nat) (caps caps' : list span) : Prop :=
  match r with
  | Lit text => w = text /\ caps' = caps
  | Star cls => all cls w = true /\ caps' = caps
  | Plus cls => all cls w = true /\ w <> EmptyString /\ caps' = caps
  | Cap n r' =>
      exists c, derives r' w pos caps c
                /\ caps' = setCap n (pos, pos + String.length w)%nat c
  | Cat r1 r2 =>
      exists w1 w2 c,
        w = w1 ++ w2 /\ derives r1 w1 pos caps c
        /\ derives r2 w2 (pos + String.length w1)%nat c caps'
  end.

(** [captured s whole name ins outs trailer]: the text [s] holds the
    declaration [whole], made of [rpc], the name, the two parenthesized
    argument lists with [returns] between them and the trailer, with
    blanks where the pattern allows them. *)
Definition captured (s whole name ins outs trailer : string) : Prop :=
  exists before sp1 sp2 sp3 sp4 sp5 sp6 sp7 sp8 after,
    s = before ++ whole ++ after
    /\ whole = "rpc" ++ sp1 ++ name ++ sp2 ++ "(" ++ sp3 ++ ins ++ sp4 ++ ")" ++ sp5
                     ++ "returns" ++ sp6 ++ "(" ++ sp7 ++ outs ++ sp8 ++ ")" ++ trailer
    /\ (blank sp1 /\ sp1 <> EmptyString) /\ blank sp2 /\ blank sp3 /\ blank sp4
    /\ (blank sp5 /\ sp5 <> EmptyString) /\ blank sp6 /\ blank sp7 /\ blank sp8
    /\ (all word name = true /\ name <> EmptyString)
    /\ clause ins /\ clause outs /\ all anyChar trailer = true.

(** [sliceable i]: the slice of line 43 (and of line 54) is in range for
    the segment [i], or is not taken. *)
Definition sliceable (i : string) : bool :=
  negb (strings.HasPrefix i "stream") || (0 <=? strings.Index i Space).

(** [fromLine l o]: [l] is an option line, one that has not the token
    that closes a block and whose text begins with [option]; the option
    [o] has the name that [l] gives, and a body that begins with the
    first body of [l]. *)
Definition fromLine (l : Line) (o : RpcOption) : Prop :=
  token_eqb (Token l) CloseBrace = false
  /\ strings.HasPrefix (Syntax l) "option" = true
  /\ exists st,
      optionStart l = Returned st
      /\ OptionName o = optionName st
      /\ exists more, OptionBody o = optionBody st ++ more.

(** [recorded sc o]: what holds of an option that a scan of the source
    [sc] adds to the Rpc. *)
Definition recorded (sc : Scanner) (o : RpcOption) : Prop :=
  OptionIndex o = EmptyString
  /\ strings.TrimSpace (OptionBody o) <> EmptyString
  /\ exists l, In l sc /\ fromLine l o.

(** [accumulated name body o]: the same for the option that is under
    accumulation, of name [name] and of body [body] so far. *)
Definition accumulated (name body : string) (o : RpcOption) : Prop :=
  OptionIndex o = EmptyString
  /\ strings.TrimSpace (OptionBody o) <> EmptyString
  /\ OptionName o = name
  /\ exists more, OptionBody o = body ++ more.

(** The lines that the inner loop appends and that do not have the
    statement-end token. *)
Definition unended (l : Line) : bool :=
  appended l && negb (token_eqb (Token l) Semicolon).

(** *** Blocks whose options are all completed

    An option statement that the inner loop completes: the option line,
    the lines appended after it, and the line at which the accumulation
    ends, which is appended too unless it is a bare terminator. *)
Record OptionLines : Type := {
  first : Line;
  middle : list Line;
  last : Line
}.

(** The body with which the line [l] ends the accumulation of the body
    [body] at the brace balance [count], if it does. *)
Definition ending (count : Z) (body : string) (l : Line) : option string :=
  if startsDeclaration l then None
  else if (strings.TrimSpace (Syntax l) =? ";")%string then Some body
  else if completes count l then Some (body ++ Syntax l)
  else None.

(** The name and the body of the option that the lines [g] give. *)
Definition optionOf (g : OptionLines) : option (string * string) :=
  if token_eqb (Token (first g)) CloseBrace then None
  else if strings.HasPrefix (Syntax (first g)) "option"
  then match optionStart (first g) with
       | Returned o =>
           if accumulating (braceCount o) (middle g)
           then match ending (balance (braceCount o) (middle g))
                             (optionBody o ++ text (middle g)) (last g) with
                | Some body => Some (optionName o, body)
                | None => None
                end
           else None
       | _ => None
       end
  else None.

(** A block is a sequence of lines that the outer loop passes over and
    of completed option statements. *)
Fixpoint blockLines (items : list (Line + OptionLines)) : list Line :=
  match items with
  | [] => []
  | inl l :: items' => l :: blockLines items'
  | inr g :: items' => (first g :: middle g ++ [last g]) ++ blockLines items'
  end.

(** The Rpc after the options of the block have been added, when every
    item of the block is what it is taken for. *)
Fixpoint blockOptions (ns : string) (items : list (Line + OptionLines)) (out : Rpc)
  : option Rpc :=
  match items with
  | [] => Some out
  | inl l :: items' => if idle l then blockOptions ns items' out else None
  | inr g :: items' =>
      match optionOf g with
      | Some (name, body) => blockOptions ns items' (flushOption ns out name body)
      | None => None
      end
  end.

(** [trimmed t]: [t] holds no comma, and [TrimSpace] finds nothing to
    remove from it. *)
Definition trimmed (t : string) : Prop :=
  lacks "," t = true /\ strings.TrimSpace t = t.

(* ================================================================== *)
(** ** Strings *)

Unset Implicit Arguments.

Lemma append_assoc (a b c : string) : (a ++ b) ++ c = a ++ (b ++ c).
Proof. induction a as [|x a IH]; simpl; [reflexivity | now rewrite IH]. Qed.

Lemma append_nil_r (a : string) : a ++ EmptyString = a.
Proof. induction a as [|x a IH]; simpl; [reflexivity | now rewrite IH]. Qed.

Lemma length_append (a b : string) :
  String.length (a ++ b) = (String.length a + String.length b)%nat.
Proof. induction a as [|x a IH]; simpl; [reflexivity | now rewrite IH]. Qed.

Lemma all_append cls (a b : string) : all cls (a ++ b) = all cls a && all cls b.
Proof.
  induction a as [|x a IH]; simpl; [reflexivity|].
  rewrite IH. now rewrite andb_assoc.
Qed.

Lemma all_weaken (p q : ascii -> bool) (w : string) :
  (forall a, p a = true -> q a = true) -> all p w = true -> all q w = true.
Proof.
  intros Hpq. induction w as [|x w IH]; simpl; [reflexivity|].
  intros H. apply andb_true_iff in H as [Hx Hw].
  now rewrite (Hpq _ Hx), (IH Hw).
Qed.

Lemma whitespace_notCloseParen (a : ascii) :
  whitespace a = true -> notCloseParen a = true.
Proof.
  unfold whitespace, notCloseParen. intros H.
  destruct (N.eqb_spec (code a) 41) as [E|E]; [|reflexivity].
  rewrite E in H. discriminate H.
Qed.

(* ================================================================== *)
(** ** The matcher finds a match exactly when the pattern denotes one *)

Section MatcherCorrect.
Context {A : Type}.

Lemma dropPrefix_Some (text s s' : string) :
  dropPrefix text s = Some s' <-> s = text ++ s'.
Proof.
  revert s. induction text as [|a text IH]; intros s; simpl.
  - split; [now intros [= ->] | now intros ->].
  - destruct s as [|b s]; [split; discriminate|].
    destruct (Ascii.eqb_spec a b) as [->|Hab].
    + rewrite IH. split; [now intros -> | now intros [= ->]].
    + split; [discriminate | intros [= E _]; now elim Hab].
Qed.

(** The last alternative of a repetition is to take nothing. *)
Lemma star_None cls (s : string) pos (k : string -> nat -> option A) :
  star cls s pos k = None -> k s pos = None.
Proof.
  destruct s as [|a s]; simpl; [auto|].
  destruct (cls a); [|auto].
  destruct (star cls s (S pos) k); [discriminate | auto].
Qed.

Lemma star_sound cls (s : string) pos (k : string -> nat -> option A) res :
  star cls s pos k = Some res ->
  exists w s', s = w ++ s' /\ all cls w = true
               /\ k s' (pos + String.length w)%nat = Some res.
Proof.
  revert pos. induction s as [|a s IH]; intros pos; simpl.
  - intros H. exists EmptyString, EmptyString. now rewrite Nat.add_0_r.
  - destruct (cls a) eqn:Ha.
    + destruct (star cls s (S pos) k) as [r|] eqn:Hs.
      * intros [= <-]. destruct (IH _ Hs) as (w & s' & -> & Hw & Hk).
        exists (String a w), s'. simpl. rewrite Ha, Hw.
        now rewrite Nat.add_succ_r.
      * intros H. exists EmptyString, (String a s). now rewrite Nat.add_0_r.
    + intros H. exists EmptyString, (String a s). now rewrite Nat.add_0_r.
Qed.

Lemma star_complete cls (w s' : string) pos (k : string -> nat -> option A) :
  all cls w = true ->
  k s' (pos + String.length w)%nat <> None ->
  star cls (w ++ s') pos k <> None.
Proof.
  revert pos. induction w as [|a w IH]; intros pos Hw Hk; simpl in *.
  - rewrite Nat.add_0_r in Hk. intros H. now apply star_None in H.
  - apply andb_true_iff in Hw as [Ha Hw]. rewrite Ha.
    rewrite Nat.add_succ_r in Hk.
    specialize (IH (S pos) Hw Hk).
    destruct (star cls (w ++ s') (S pos) k); [discriminate | contradiction].
Qed.

Lemma run_sound (r : Regexp) :
  forall (s : string) pos caps (k : string -> nat -> list span -> option A) res,
    run r s pos caps k = Some res ->
    exists s' pos' caps', denotes r s s' /\ k s' pos' caps' = Some res.
Proof.
  induction r as [text|cls|cls|n r IH|r1 IH1 r2 IH2]; intros s pos caps k res; simpl.
  - destruct (dropPrefix text s) as [s'|] eqn:E; [|discriminate].
    intros H. apply dropPrefix_Some in E. eauto.
  - intros H. apply star_sound in H as (w & s' & -> & Hw & Hk). eauto 8.
  - destruct s as [|a s]; [discriminate|].
    destruct (cls a) eqn:Ha; [|discriminate].
    intros H. apply star_sound in H as (w & s' & -> & Hw & Hk).
    exists s', (S pos + String.length w)%nat, caps. split; [|exact Hk].
    exists (String a w). simpl. rewrite Ha, Hw. repeat split. discriminate.
  - intros H. apply IH in H as (s' & pos' & caps' & Hd & Hk). eauto.
  - intros H. apply IH1 in H as (m & pos1 & caps1 & Hd1 & H).
    apply IH2 in H as (s' & pos2 & caps2 & Hd2 & Hk). eauto 8.
Qed.

Lemma run_complete (r : Regexp) :
  forall (s s' : string) pos caps (k : string -> nat -> list span -> option A),
    denotes r s s' ->
    (forall pos' caps', k s' pos' caps' <> None) ->
    run r s pos caps k <> None.
Proof.
  induction r as [text|cls|cls|n r IH|r1 IH1 r2 IH2]; intros s s' pos caps k; simpl.
  - intros -> Hk. now rewrite (proj2 (dropPrefix_Some text _ s') eq_refl).
  - intros (w & -> & Hw) Hk. now apply star_complete.
  - intros (w & -> & Hw & Hne) Hk.
    destruct w as [|a w]; [now elim Hne|]. simpl in *.
    apply andb_true_iff in Hw as [Ha Hw]. rewrite Ha. now apply star_complete.
  - intros Hd Hk. apply (IH s s'); auto.
  - intros (m & Hd1 & Hd2) Hk. apply (IH1 s m); [exact Hd1|].
    intros pos' caps'. now apply (IH2 m s').
Qed.
End MatcherCorrect.

Lemma matchAt_denotes (r : Regexp) (s : string) pos :
  matchAt r s pos <> None <-> exists s', denotes r s s'.
Proof.
  unfold matchAt. split.
  - destruct (run _ _ _ _ _) as [res|] eqn:E; [|now intros H].
    intros _. apply run_sound in E as (s' & _ & _ & Hd & _). eauto.
  - intros (s' & Hd). eapply run_complete; [exact Hd | discriminate].
Qed.

Lemma findFrom_denotes (r : Regexp) (s : string) :
  forall pos, findFrom r s pos <> None <->
              exists before s1 s', s = before ++ s1 /\ denotes r s1 s'.
Proof.
  induction s as [|a s IH]; intros pos; simpl.
  - destruct (matchAt r EmptyString pos) as [caps|] eqn:E.
    + split; [intros _|discriminate].
      assert (H : matchAt r EmptyString pos <> None) by now rewrite E.
      apply matchAt_denotes in H as (s' & Hd). now exists EmptyString, EmptyString, s'.
    + split; [now intros H|].
      intros (before & s1 & s' & Hs & Hd).
      destruct before; [|discriminate]. simpl in Hs. subst s1.
      assert (H : matchAt r EmptyString pos <> None)
        by (apply matchAt_denotes; eauto).
      now rewrite E in H.
  - destruct (matchAt r (String a s) pos) as [caps|] eqn:E.
    + split; [intros _|discriminate].
      assert (H : matchAt r (String a s) pos <> None) by now rewrite E.
      apply matchAt_denotes in H as (s' & Hd). now exists EmptyString, (String a s), s'.
    + rewrite IH. split.
      * intros (before & s1 & s' & -> & Hd). now exists (String a before), s1, s'.
      * intros (before & s1 & s' & Hs & Hd).
        destruct before as [|b before]; simpl in Hs.
        -- subst s1.
           assert (H : matchAt r (String a s) pos <> None)
             by (apply matchAt_denotes; eauto).
           now rewrite E in H.
        -- injection Hs as _ ->. eauto.
Qed.

Lemma MatchString_denotes (r : Regexp) (s : string) :
  MatchString r s = true <->
  exists before s1 s', s = before ++ s1 /\ denotes r s1 s'.
Proof.
  unfold MatchString, FindStringSubmatchIndex.
  rewrite <- (findFrom_denotes r s 0).
  destruct (findFrom r s 0); split; try discriminate; try reflexivity.
  intros H. now elim H.
Qed.

(** *** The declaration matcher *)

Lemma append_nonempty (a b c : string) : b <> EmptyString -> a ++ b ++ c <> EmptyString.
Proof. destruct a; simpl; [|discriminate]. destruct b; [now intros H | discriminate]. Qed.

Lemma clause_padded (a b c : string) :
  blank a -> clause b -> blank c -> clause (a ++ b ++ c).
Proof.
  unfold blank, clause. intros Ha [Hb Hne] Hc. split; [|now apply append_nonempty].
  rewrite !all_append, Hb.
  rewrite (all_weaken _ _ _ whitespace_notCloseParen Ha).
  now rewrite (all_weaken _ _ _ whitespace_notCloseParen Hc).
Qed.

Lemma CanVisit_declares (l : Line) :
  CanVisit NewRpcVisitor l = true <-> declares (Syntax l).
Proof.
  unfold CanVisit. rewrite MatchString_denotes.
  change (RpcLineMatcher NewRpcVisitor) with RpcLinePattern.
  unfold declares, RpcLinePattern. cbn [denotes].
  split.
  - intros (before & s1 & s' & Hs & H).
    destruct H as (m1 & -> & m2 & (sp1 & -> & Hsp1 & Hne1)
       & m3 & (name & -> & Hname & Hnn) & m4 & (sp2 & -> & Hsp2)
       & m5 & -> & m6 & (w5 & -> & Hw5) & m7 & (w6 & -> & Hw6 & Hn6)
       & m8 & (w7 & -> & Hw7) & m9 & -> & m10 & (sp3 & -> & Hsp3 & Hne3)
       & m11 & -> & m12 & (sp4 & -> & Hsp4) & m13 & ->
       & m14 & (v5 & -> & Hv5) & m15 & (v6 & -> & Hv6 & Hvn6)
       & m16 & (v7 & -> & Hv7) & m17 & -> & (tr & -> & Htr)).
    exists before, sp1, name, sp2, (w5 ++ w6 ++ w7), sp3, sp4, (v5 ++ v6 ++ v7), (tr ++ s').
    split; [rewrite Hs; now rewrite !append_assoc|].
    repeat split; auto; now apply clause_padded.
  - intros (before & sp1 & name & sp2 & ins & sp3 & sp4 & outs & after & Hs
            & [Hsp1 Hne1] & [Hname Hnn] & Hsp2 & [Hins Hni] & [Hsp3 Hne3]
            & Hsp4 & [Hout Hno]).
    eexists before, _, after. split; [exact Hs|].
    eexists; split; [reflexivity|].
    eexists; split; [exists sp1; repeat split; auto|].
    eexists; split; [exists name; repeat split; auto|].
    eexists; split; [exists sp2; repeat split; auto|].
    eexists; split; [reflexivity|].
    eexists; split; [exists EmptyString; split; reflexivity|].
    eexists; split; [exists ins; repeat split; auto|].
    eexists; split; [exists EmptyString; split; reflexivity|].
    eexists; split; [reflexivity|].
    eexists; split; [exists sp3; repeat split; auto|].
    eexists; split; [reflexivity|].
    eexists; split; [exists sp4; repeat split; auto|].
    eexists; split; [reflexivity|].
    eexists; split; [exists EmptyString; split; reflexivity|].
    eexists; split; [exists outs; repeat split; auto|].
    eexists; split; [exists EmptyString; split; reflexivity|].
    eexists; split; [reflexivity|].
    exists EmptyString; split; reflexivity.
Qed.

(* ================================================================== *)
(** ** The block scanner *)

Lemma bind_Returned {A B : Type} (m : outcome A) (f : A -> outcome B) (b : B) :
  bind m f = Returned b -> exists a, m = Returned a /\ f a = Returned b.
Proof. destruct m; simpl; [eauto | discriminate | discriminate]. Qed.

Section BlockEquations.
Variable delegate : Scanner -> Line -> string -> outcome (Rpc * Scanner).
Variable namespace : string.

Lemma scanBlock_nil out : scanBlock delegate namespace out [] = Returned (out, []).
Proof. reflexivity. Qed.

Lemma scanBlock_cons out l sc :
  scanBlock delegate namespace out (l :: sc) =
  if token_eqb (Token l) CloseBrace then Returned (out, sc)
  else if strings.HasPrefix (Syntax l) "option"
  then o <- optionStart l ;;
       accumulate delegate namespace out (optionName o) (optionBody o) (braceCount o) sc
  else scanBlock delegate namespace out sc.
Proof. reflexivity. Qed.

Lemma accumulate_nil out name body count :
  accumulate delegate namespace out name body count [] =
  Returned (flushOption namespace out name body, []).
Proof. reflexivity. Qed.

Lemma accumulate_cons out name body count l sc :
  accumulate delegate namespace out name body count (l :: sc) =
  if startsDeclaration l
  then if CanVisit NewRpcVisitor l
       then ' (_, sc') <- delegate sc l namespace ;;
            Returned (flushOption namespace out name body, sc')
       else Returned (flushOption namespace out name body, sc)
  else if (strings.TrimSpace (Syntax l) =? ";")%string
  then scanBlock delegate namespace (flushOption namespace out name body) sc
  else if token_eqb (Token l) Semicolon
            && (count + strings.Count (Syntax l) "{" - strings.Count (Syntax l) "}" =? 0)
  then scanBlock delegate namespace
                 (flushOption namespace out name (body ++ Syntax l)) sc
  else accumulate delegate namespace out name (body ++ Syntax l)
                  (count + strings.Count (Syntax l) "{" - strings.Count (Syntax l) "}") sc.
Proof. reflexivity. Qed.
End BlockEquations.

Lemma extends_refl ns out : extends ns out out.
Proof.
  repeat split. exists []. split; [now rewrite app_nil_r | constructor].
Qed.

Lemma extends_trans ns a b c : extends ns a b -> extends ns b c -> extends ns a c.
Proof.
  intros (N1 & M1 & C1 & I1 & R1 & add1 & O1 & F1) (N2 & M2 & C2 & I2 & R2 & add2 & O2 & F2).
  repeat split; try congruence.
  exists (add1 ++ add2)%list. split.
  - now rewrite O2, O1, app_assoc.
  - apply Forall_app. split; [exact F1|]. now rewrite <- M1.
Qed.

Lemma flushOption_extends ns out name body : extends ns out (flushOption ns out name body).
Proof.
  unfold flushOption.
  destruct (0 <? _); [|apply extends_refl].
  repeat split. eexists. split; [reflexivity|].
  constructor; [reflexivity | constructor].
Qed.

Lemma scan_extends delegate ns (sc : Scanner) :
  (forall out r sc', scanBlock delegate ns out sc = Returned (r, sc') -> extends ns out r)
  /\ (forall out name body count r sc',
         accumulate delegate ns out name body count sc = Returned (r, sc') ->
         extends ns out r).
Proof.
  induction sc as [|l sc [IHs IHa]]; split.
  - intros out r sc' [= <- _]. apply extends_refl.
  - intros out name body count r sc' [= <- _]. apply flushOption_extends.
  - intros out r sc'. rewrite scanBlock_cons.
    destruct (token_eqb _ _); [intros [= <- _]; apply extends_refl|].
    destruct (strings.HasPrefix _ _); [|apply IHs].
    intros H. apply bind_Returned in H as (o & _ & H). now apply IHa in H.
  - intros out name body count r sc'. rewrite accumulate_cons.
    destruct (startsDeclaration l).
    + destruct (CanVisit _ _).
      * intros H. apply bind_Returned in H as ([r2 sc2] & _ & [= <- _]).
        apply flushOption_extends.
      * intros [= <- _]. apply flushOption_extends.
    + destruct (_ =? _)%string.
      * intros H. apply IHs in H.
        exact (extends_trans _ _ _ _ (flushOption_extends _ _ _ _) H).
      * destruct (_ && _).
        -- intros H. apply IHs in H.
           exact (extends_trans _ _ _ _ (flushOption_extends _ _ _ _) H).
        -- apply IHa.
Qed.

Lemma bind_fuel {A B : Type} (m : outcome A) (f : A -> outcome B) :
  m <> OutOfFuel -> (forall a, f a <> OutOfFuel) -> bind m f <> OutOfFuel.
Proof. destruct m; simpl; [auto | discriminate | auto]. Qed.

Lemma slice_fuel s lo hi : slice s lo hi <> OutOfFuel.
Proof. unfold slice. destruct (_ && _); discriminate. Qed.

Lemma at_index_fuel values i : at_index values i <> OutOfFuel.
Proof. unfold at_index. destruct (nth_error values i); discriminate. Qed.

Lemma parseArg_fuel i : parseArg i <> OutOfFuel.
Proof.
  unfold parseArg. destruct (strings.HasPrefix i "stream"); [|discriminate].
  apply bind_fuel; [apply slice_fuel | discriminate].
Qed.

Lemma parseArgs_fuel add args : forall rpc, parseArgs add args rpc <> OutOfFuel.
Proof.
  induction args as [|i args IH]; intros rpc; simpl; [discriminate|].
  apply bind_fuel; [apply parseArg_fuel | auto].
Qed.

Lemma declaration_fuel rv l ns : declaration rv l ns <> OutOfFuel.
Proof.
  unfold declaration, ParseInArgs, ParseReturnArgs.
  apply bind_fuel; [apply at_index_fuel | intros name].
  apply bind_fuel.
  - apply bind_fuel; [apply at_index_fuel | intros; apply parseArgs_fuel].
  - intros out. apply bind_fuel; [apply at_index_fuel | intros; apply parseArgs_fuel].
Qed.

Lemma optionStart_fuel l : optionStart l <> OutOfFuel.
Proof.
  unfold optionStart. apply bind_fuel; [apply slice_fuel | intros name].
  destruct (strings.Contains _ _); [|discriminate].
  destruct (1 <? _); [|discriminate].
  apply bind_fuel; [apply at_index_fuel | discriminate].
Qed.

Lemma Visit_S fuel rv sc l ns :
  Visit (S fuel) rv sc l ns =
  out <- declaration rv l ns ;;
  if token_eqb (Token l) Semicolon then Returned (out, sc)
  else scanBlock (Visit fuel NewRpcVisitor) ns out sc.
Proof.
  unfold declaration. cbn [Visit].
  destruct (at_index _ 1); try reflexivity. cbn [bind].
  destruct (ParseInArgs _ _); reflexivity.
Qed.

(** *** Termination *)

Lemma scan_fuel delegate ns (n : nat) :
  (forall sc l ns', (List.length sc < n)%nat -> delegate sc l ns' <> OutOfFuel) ->
  forall sc, (List.length sc <= n)%nat ->
    (forall out, scanBlock delegate ns out sc <> OutOfFuel)
    /\ (forall out name body count,
           accumulate delegate ns out name body count sc <> OutOfFuel).
Proof.
  intros Hd. induction sc as [|l sc IH]; intros Hn.
  - split; discriminate.
  - simpl in Hn. destruct IH as [IHs IHa]; [lia|]. split.
    + intros out. rewrite scanBlock_cons.
      destruct (token_eqb _ _); [discriminate|].
      destruct (strings.HasPrefix _ _); [|apply IHs].
      apply bind_fuel; [apply optionStart_fuel | intros; apply IHa].
    + intros out name body count. rewrite accumulate_cons.
      destruct (startsDeclaration l).
      * destruct (CanVisit _ _); [|discriminate].
        apply bind_fuel; [apply Hd; lia | intros [r sc']; discriminate].
      * destruct (_ =? _)%string; [apply IHs|].
        destruct (_ && _); [apply IHs | apply IHa].
Qed.

Lemma Visit_fuel fuel :
  forall rv sc l ns, (List.length sc < fuel)%nat -> Visit fuel rv sc l ns <> OutOfFuel.
Proof.
  induction fuel as [|fuel IH]; intros rv sc l ns Hlen; [lia|].
  rewrite Visit_S. apply bind_fuel; [apply declaration_fuel | intros out].
  destruct (token_eqb _ _); [discriminate|].
  apply (scan_fuel _ ns (List.length sc)); [|lia].
  intros sc' l' ns' Hlt. apply IH. lia.
Qed.

(** More fuel does not change an outcome that did not need it. *)
Lemma bind_refines {A B : Type} (m : outcome A) (f g : A -> outcome B) :
  (forall a, refines (f a) (g a)) -> refines (bind m f) (bind m g).
Proof. destruct m; simpl; [auto | easy | easy]. Qed.

Lemma refines_refl {A : Type} (m : outcome A) : refines m m.
Proof. now intros _. Qed.

Lemma scan_refines d d' ns :
  (forall sc l ns', refines (d sc l ns') (d' sc l ns')) ->
  forall sc,
    (forall out, refines (scanBlock d ns out sc) (scanBlock d' ns out sc))
    /\ (forall out name body count,
           refines (accumulate d ns out name body count sc)
                   (accumulate d' ns out name body count sc)).
Proof.
  intros Hd. induction sc as [|l sc [IHs IHa]]; split; intros.
  - apply refines_refl.
  - apply refines_refl.
  - rewrite !scanBlock_cons.
    destruct (token_eqb _ _); [apply refines_refl|].
    destruct (strings.HasPrefix _ _); [|apply IHs].
    apply bind_refines. intros o. apply IHa.
  - rewrite !accumulate_cons.
    destruct (startsDeclaration l).
    + destruct (CanVisit _ _); [|apply refines_refl].
      intros H. rewrite Hd; [reflexivity|].
      intros E. rewrite E in H. now apply H.
    + destruct (_ =? _)%string; [apply IHs|].
      destruct (_ && _); [apply IHs | apply IHa].
Qed.

Lemma Visit_refines fuel :
  forall rv sc l ns, refines (Visit fuel rv sc l ns) (Visit (S fuel) rv sc l ns).
Proof.
  induction fuel as [|fuel IH]; intros rv sc l ns; [now intros H|].
  rewrite (Visit_S (S fuel)), (Visit_S fuel).
  apply bind_refines. intros out.
  destruct (token_eqb _ _); [apply refines_refl|].
  apply scan_refines. intros sc' l' ns'. apply IH.
Qed.

Lemma Visit_enough rv sc l ns fuel :
  (List.length sc < fuel)%nat ->
  Visit fuel rv sc l ns = Visit (S (List.length sc)) rv sc l ns.
Proof.
  intros H. replace fuel with ((fuel - S (List.length sc)) + S (List.length sc))%nat by lia.
  induction (fuel - S (List.length sc))%nat as [|k IH]; [reflexivity|].
  cbn [Nat.add]. rewrite <- IH. apply Visit_refines.
  rewrite IH. apply Visit_fuel. lia.
Qed.

(** *** What a call returns *)

Lemma parseArgs_keeps add :
  (forall r p, Namespace (add r p) = Namespace r /\ Name (add r p) = Name r
               /\ RpcComment (add r p) = RpcComment r /\ Options (add r p) = Options r) ->
  forall args rpc rpc',
    parseArgs add args rpc = Returned rpc' ->
    Namespace rpc' = Namespace rpc /\ Name rpc' = Name rpc
    /\ RpcComment rpc' = RpcComment rpc /\ Options rpc' = Options rpc.
Proof.
  intros Hadd. induction args as [|i args IH]; intros rpc rpc'; simpl.
  - now intros [= ->].
  - intros H. apply bind_Returned in H as (p & _ & H).
    apply IH in H as (N & M & C & O).
    destruct (Hadd rpc p) as (N' & M' & C' & O'). repeat split; congruence.
Qed.

Lemma declaration_fresh rv l ns out :
  declaration rv l ns = Returned out ->
  Namespace out = ns /\ RpcComment out = Comment l /\ Options out = []
  /\ at_index (FindStringSubmatch (RpcLineMatcher rv) (Syntax l)) 1 = Returned (Name out).
Proof.
  unfold declaration, ParseInArgs, ParseReturnArgs. intros H.
  apply bind_Returned in H as (name & Hname & H).
  apply bind_Returned in H as (out1 & H1 & H).
  apply bind_Returned in H1 as (v2 & _ & H1).
  apply bind_Returned in H as (v3 & _ & H).
  apply parseArgs_keeps in H1 as (N1 & M1 & C1 & O1); [|now intros].
  apply parseArgs_keeps in H as (N2 & M2 & C2 & O2); [|now intros].
  simpl in *. rewrite Hname. repeat split; congruence.
Qed.

Lemma Visit_extends fuel rv sc l ns r sc' :
  Visit fuel rv sc l ns = Returned (r, sc') ->
  exists out, declaration rv l ns = Returned out /\ extends ns out r.
Proof.
  destruct fuel as [|fuel]; [discriminate|]. rewrite Visit_S.
  intros H. apply bind_Returned in H as (out & Hout & H).
  exists out. split; [exact Hout|].
  destruct (token_eqb _ _).
  - injection H as <- _. apply extends_refl.
  - now apply (proj1 (scan_extends _ ns sc)) in H.
Qed.

(** *** The source only advances *)

Lemma scan_suffix d ns :
  (forall sc l ns' r sc', d sc l ns' = Returned (r, sc') -> exists pulled, sc = (pulled ++ sc')%list) ->
  forall sc,
    (forall out r sc', scanBlock d ns out sc = Returned (r, sc') ->
                       exists pulled, sc = (pulled ++ sc')%list)
    /\ (forall out name body count r sc',
           accumulate d ns out name body count sc = Returned (r, sc') ->
           exists pulled, sc = (pulled ++ sc')%list).
Proof.
  intros Hd.
  assert (step : forall (l : Line) sc sc',
             (exists pulled, sc = (pulled ++ sc')%list) ->
             exists pulled, l :: sc = (pulled ++ sc')%list).
  { intros l sc sc' (pulled & ->). now exists (l :: pulled). }
  induction sc as [|l sc [IHs IHa]]; split.
  - intros out r sc' [= _ <-]. now exists [].
  - intros out name body count r sc' [= _ <-]. now exists [].
  - intros out r sc'. rewrite scanBlock_cons.
    destruct (token_eqb _ _); [intros [= _ <-]; now exists [l]|].
    destruct (strings.HasPrefix _ _).
    + intros H. apply bind_Returned in H as (o & _ & H). apply step. eauto.
    + intros H. apply step. eauto.
  - intros out name body count r sc'. rewrite accumulate_cons.
    destruct (startsDeclaration l).
    + destruct (CanVisit _ _).
      * intros H. apply bind_Returned in H as ([r2 sc2] & H2 & [= _ <-]).
        apply step. eauto.
      * intros [= _ <-]. now exists [l].
    + destruct (_ =? _)%string; [intros H; apply step; eauto|].
      destruct (_ && _); intros H; apply step; eauto.
Qed.

Lemma Visit_suffix fuel :
  forall rv sc l ns r sc',
    Visit fuel rv sc l ns = Returned (r, sc') -> exists pulled, sc = (pulled ++ sc')%list.
Proof.
  induction fuel as [|fuel IH]; intros rv sc l ns r sc'; [discriminate|].
  rewrite Visit_S. intros H. apply bind_Returned in H as (out & _ & H).
  destruct (token_eqb _ _).
  - injection H as _ <-. now exists [].
  - revert H. apply scan_suffix. intros sc0 l0 ns0 r0 sc0'. apply IH.
Qed.

(** Every line that a loop has pulled is gone from the source that the
    call leaves: the delegate starts after the line that made the inner
    loop call it. *)
Lemma accumulate_advances fuel ns out name body count (l : Line) (sc : Scanner) r sc' :
  accumulate (Visit fuel NewRpcVisitor) ns out name body count (l :: sc) = Returned (r, sc') ->
  exists pulled, sc = (pulled ++ sc')%list.
Proof.
  assert (Hd : forall sc0 l0 ns0 r0 sc0',
             Visit fuel NewRpcVisitor sc0 l0 ns0 = Returned (r0, sc0') ->
             exists pulled, sc0 = (pulled ++ sc0')%list)
    by (intros sc0 l0 ns0 r0 sc0'; apply Visit_suffix).
  destruct (scan_suffix _ ns Hd sc) as [Hs Ha].
  rewrite accumulate_cons.
  destruct (startsDeclaration l).
  - destruct (CanVisit _ _).
    + intros H. apply bind_Returned in H as ([r2 sc2] & H2 & [= _ <-]). eauto.
    + intros [= _ <-]. now exists [].
  - destruct (_ =? _)%string; [apply Hs|].
    destruct (_ && _); [apply Hs | apply Ha].
Qed.

(** *** Runs of lines inside a block *)

Lemma count_braces count s :
  count + strings.Count s "{" - strings.Count s "}" = count + braces s.
Proof. unfold braces. lia. Qed.

Lemma scanBlock_idle d ns out (ls rest : list Line) :
  forallb idle ls = true ->
  scanBlock d ns out (ls ++ rest)%list = scanBlock d ns out rest.
Proof.
  induction ls as [|l ls IH]; cbn [forallb app]; [reflexivity|].
  intros H. apply andb_true_iff in H as [Hl Hls].
  unfold idle in Hl. apply andb_true_iff in Hl as [Hc Ho].
  rewrite scanBlock_cons.
  apply negb_true_iff in Hc, Ho. rewrite Hc, Ho. auto.
Qed.

Lemma accumulate_run d ns (ls rest : list Line) :
  forall out name body count,
    accumulating count ls = true ->
    accumulate d ns out name body count (ls ++ rest)%list =
    accumulate d ns out name (body ++ text ls) (balance count ls) rest.
Proof.
  induction ls as [|l ls IH]; intros out name body count;
    cbn [accumulating balance text app].
  - now rewrite append_nil_r.
  - intros H. apply andb_true_iff in H as [H Hls].
    apply andb_true_iff in H as [Ha Hc].
    unfold appended in Ha. apply andb_true_iff in Ha as [Hd Hs].
    apply negb_true_iff in Hd, Hs, Hc. unfold completes in Hc.
    rewrite accumulate_cons, Hd, Hs, count_braces, Hc.
    rewrite IH by exact Hls. now rewrite append_assoc.
Qed.


Lemma accumulate_exhausted d ns (ls : list Line) :
  forall out name body count,
    accumulating count ls = true ->
    accumulate d ns out name body count ls =
    Returned (flushOption ns out name (body ++ text ls), []).
Proof.
  intros out name body count Hls.
  rewrite <- (app_nil_r ls) at 1.
  now rewrite accumulate_run, accumulate_nil.
Qed.

(** *** The submatches of a declaration *)

Section Greedy.
Context {A : Type}.

Lemma star_stops cls (s : string) pos (k : string -> nat -> option A) :
  stops cls s = true -> star cls s pos k = k s pos.
Proof.
  destruct s as [|a s]; simpl; [reflexivity|].
  intros H. apply negb_true_iff in H. now rewrite H.
Qed.

Lemma star_greedy cls (w s' : string) (k : string -> nat -> option A) res :
  forall pos,
    all cls w = true -> stops cls s' = true ->
    k s' (pos + String.length w)%nat = Some res ->
    star cls (w ++ s') pos k = Some res.
Proof.
  induction w as [|a w IH]; intros pos Hw Hs Hk; simpl in *.
  - rewrite Nat.add_0_r in Hk. now rewrite star_stops.
  - apply andb_true_iff in Hw as [Ha Hw]. rewrite Ha.
    rewrite Nat.add_succ_r in Hk. now rewrite (IH (S pos) Hw Hs Hk).
Qed.

Lemma run_Cat r1 r2 (s : string) pos caps (k : string -> nat -> list span -> option A) :
  run (Cat r1 r2) s pos caps k =
  run r1 s pos caps (fun s' pos' caps' => run r2 s' pos' caps' k).
Proof. reflexivity. Qed.

Lemma run_Cap n r (s : string) pos caps (k : string -> nat -> list span -> option A) :
  run (Cap n r) s pos caps k =
  run r s pos caps (fun s' pos' caps' => k s' pos' (setCap n (pos, pos') caps')).
Proof. reflexivity. Qed.

Lemma run_Lit text (s' : string) pos caps (k : string -> nat -> list span -> option A) :
  run (Lit text) (text ++ s') pos caps k = k s' (pos + String.length text)%nat caps.
Proof.
  cbn [run]. now rewrite (proj2 (dropPrefix_Some text _ s') eq_refl).
Qed.

Lemma run_Star cls (w s' : string) pos caps
      (k : string -> nat -> list span -> option A) res :
  all cls w = true -> stops cls s' = true ->
  k s' (pos + String.length w)%nat caps = Some res ->
  run (Star cls) (w ++ s') pos caps k = Some res.
Proof. intros Hw Hs Hk. cbn [run]. now apply star_greedy. Qed.

Lemma run_Star_none cls (s : string) pos caps
      (k : string -> nat -> list span -> option A) :
  stops cls s = true -> run (Star cls) s pos caps k = k s pos caps.
Proof. intros Hs. cbn [run]. now rewrite star_stops. Qed.

Lemma run_Plus cls (w s' : string) pos caps
      (k : string -> nat -> list span -> option A) res :
  all cls w = true -> w <> EmptyString -> stops cls s' = true ->
  k s' (pos + String.length w)%nat caps = Some res ->
  run (Plus cls) (w ++ s') pos caps k = Some res.
Proof.
  intros Hw Hne Hs Hk. destruct w as [|a w]; [now elim Hne|].
  cbn [run append all String.length] in *.
  apply andb_true_iff in Hw as [Ha Hw]. rewrite Ha.
  apply star_greedy; auto. now rewrite Nat.add_succ_r in Hk.
Qed.
End Greedy.

Lemma stops_blank cls (w s : string) :
  (forall a, whitespace a = true -> cls a = false) ->
  all whitespace w = true -> stops cls s = true -> stops cls (w ++ s) = true.
Proof.
  intros H. destruct w as [|a w]; simpl; [auto|].
  intros Hw _. apply andb_true_iff in Hw as [Ha _]. now rewrite (H a Ha).
Qed.

Lemma stops_first cls (w s : string) :
  w <> EmptyString -> stops cls w = true -> stops cls (w ++ s) = true.
Proof. destruct w; simpl; [now intros H | auto]. Qed.

Lemma whitespace_not_word a : whitespace a = true -> word a = false.
Proof.
  unfold whitespace, word. intros H.
  repeat (apply orb_true_iff in H as [H|H]);
    apply N.eqb_eq in H; now rewrite H.
Qed.

Lemma word_not_whitespace a : word a = true -> whitespace a = false.
Proof.
  intros H. destruct (whitespace a) eqn:E; [|reflexivity].
  apply whitespace_not_word in E. congruence.
Qed.

Lemma stops_word_whitespace (w s : string) :
  all word w = true -> w <> EmptyString -> stops whitespace (w ++ s) = true.
Proof.
  destruct w as [|a w]; simpl; [now intros _ H|].
  intros H _. apply andb_true_iff in H as [Ha _].
  now rewrite (word_not_whitespace a Ha).
Qed.

Lemma findFrom_first (r : Regexp) (s : string) pos caps :
  matchAt r s pos = Some caps -> findFrom r s pos = Some caps.
Proof. intros H. destruct s; simpl; now rewrite H. Qed.

Lemma substring_all (w q : string) :
  substring 0 (String.length w) (w ++ q) = w.
Proof.
  induction w as [|a w IH]; simpl; [now destruct q | now rewrite IH].
Qed.

Lemma substring_span (s p w q : string) (a b : nat) :
  s = p ++ w ++ q -> a = String.length p -> b = (a + String.length w)%nat ->
  substring a (b - a) s = w.
Proof.
  intros -> -> ->. replace (_ + _ - _)%nat with (String.length w) by lia.
  induction p as [|x p IH]; simpl; [apply substring_all | exact IH].
Qed.

Lemma star_leading {A : Type} cls (f : nat -> A) (s : string) :
  forall pos, star cls s pos (fun _ p => Some (f p)) = Some (f (pos + leading cls s)%nat).
Proof.
  induction s as [|a s IH]; intros pos; simpl.
  - now rewrite Nat.add_0_r.
  - destruct (cls a); [|now rewrite Nat.add_0_r].
    now rewrite IH, Nat.add_succ_r.
Qed.

(** The groups of a declaration: the name, and the two argument lists
    from their first character that is not a blank up to the closing
    parenthesis. *)
Lemma FindStringSubmatch_declaration sp1 name sp2 sp3 ins sp4 sp5 sp6 outs trailer :
  blank sp1 -> sp1 <> EmptyString ->
  all word name = true -> name <> EmptyString ->
  blank sp2 -> blank sp3 ->
  all notCloseParen ins = true -> stops whitespace ins = true -> ins <> EmptyString ->
  blank sp4 -> sp4 <> EmptyString -> blank sp5 -> blank sp6 ->
  all notCloseParen outs = true -> stops whitespace outs = true -> outs <> EmptyString ->
  exists whole rest,
    FindStringSubmatch RpcLinePattern
      ("rpc" ++ sp1 ++ name ++ sp2 ++ "(" ++ sp3 ++ ins ++ ")" ++ sp4
             ++ "returns" ++ sp5 ++ "(" ++ sp6 ++ outs ++ ")" ++ trailer) =
    [whole; name; ins; outs; rest].
Proof.
  unfold blank.
  intros H1 N1 Hname Hn H2 H3 Hins Hsi Hi H4 N4 H5 H6 Houts Hso Ho.
  set (s := "rpc" ++ _).
  assert (Hm : exists e p4 p3 p2 p1,
             matchAt RpcLinePattern s 0 =
             Some [(O, e); (p1, p1 + String.length name)%nat;
                   (p2, p2 + String.length ins)%nat;
                   (p3, p3 + String.length outs)%nat; (p4, e)]
             /\ p1 = String.length ("rpc" ++ sp1)
             /\ p2 = String.length ("rpc" ++ sp1 ++ name ++ sp2 ++ "(" ++ sp3)
             /\ p3 = String.length ("rpc" ++ sp1 ++ name ++ sp2 ++ "(" ++ sp3 ++ ins
                                          ++ ")" ++ sp4 ++ "returns" ++ sp5 ++ "(" ++ sp6)).
  { unfold matchAt, RpcLinePattern, s. cbn [NumSubexp Nat.max repeat].
    do 5 eexists. split.
    - rewrite run_Cat, run_Lit.
      rewrite run_Cat. apply run_Plus; auto using stops_word_whitespace.
      rewrite run_Cat, run_Cap. apply run_Plus; auto.
      { apply stops_blank; auto using whitespace_not_word. }
      rewrite run_Cat. apply run_Star; auto.
      rewrite run_Cat, run_Lit.
      rewrite run_Cat. apply run_Star; auto using stops_first.
      rewrite run_Cat, run_Cap. apply run_Plus; auto.
      rewrite run_Cat, run_Star_none by reflexivity.
      rewrite run_Cat, run_Lit.
      rewrite run_Cat. apply run_Plus; auto.
      rewrite run_Cat, run_Lit.
      rewrite run_Cat. apply run_Star; auto.
      rewrite run_Cat, run_Lit.
      rewrite run_Cat. apply run_Star; auto using stops_first.
      rewrite run_Cat, run_Cap. apply run_Plus; auto.
      rewrite run_Cat, run_Star_none by reflexivity.
      rewrite run_Cat, run_Lit.
      rewrite run_Cap. cbn [run setCap].
      rewrite star_leading. reflexivity.
    - rewrite !length_append. cbn [String.length]. repeat split; lia. }
  destruct Hm as (e & p4 & p3 & p2 & p1 & Hm & E1 & E2 & E3).
  unfold FindStringSubmatch, FindStringSubmatchIndex.
  rewrite (findFrom_first _ _ _ _ Hm). cbn [map fst snd].
  rewrite (substring_span s ("rpc" ++ sp1) name
             (sp2 ++ "(" ++ sp3 ++ ins ++ ")" ++ sp4 ++ "returns" ++ sp5 ++ "("
                  ++ sp6 ++ outs ++ ")" ++ trailer) p1 _);
    [|unfold s; now rewrite !append_assoc|exact E1|reflexivity].
  rewrite (substring_span s ("rpc" ++ sp1 ++ name ++ sp2 ++ "(" ++ sp3) ins
             (")" ++ sp4 ++ "returns" ++ sp5 ++ "(" ++ sp6 ++ outs ++ ")" ++ trailer) p2 _);
    [|unfold s; now rewrite !append_assoc|exact E2|reflexivity].
  rewrite (substring_span s ("rpc" ++ sp1 ++ name ++ sp2 ++ "(" ++ sp3 ++ ins ++ ")" ++ sp4
                                   ++ "returns" ++ sp5 ++ "(" ++ sp6) outs
             (")" ++ trailer) p3 _);
    [|unfold s; now rewrite !append_assoc|exact E3|reflexivity].
  eauto.
Qed.

(** *** Type names are left as they are by the parameter parser *)

Lemma typeChar_code a :
  typeChar a = true -> (46 <= code a < 128)%N.
Proof.
  unfold typeChar, word. intros H.
  repeat (apply orb_true_iff in H as [H|H]);
    repeat (apply andb_true_iff in H as [? H]);
    repeat match goal with
           | E : (_ <=? _)%N = true |- _ => apply N.leb_le in E
           | E : (_ =? _)%N = true |- _ => apply N.eqb_eq in E
           end; lia.
Qed.

Lemma typeChar_not_space a : typeChar a = true -> strings.asciiSpace a = false.
Proof.
  intros H. apply typeChar_code in H. unfold strings.asciiSpace.
  change (strings.code a) with (code a).
  destruct (N.leb_spec 9 (code a)), (N.leb_spec (code a) 13), (N.eqb_spec (code a) 32);
    simpl; try reflexivity; lia.
Qed.

Ltac code_cases a :=
  unfold strings.space2, strings.space3; change (strings.code a) with (code a);
  repeat match goal with
         | |- context [(code a =? ?n)%N] =>
             destruct (N.eqb_spec (code a) n); [lia|]
         | |- context [(?n <=? code a)%N] =>
             destruct (N.leb_spec n (code a)); [lia|]
         end;
  cbn [andb orb]; rewrite ?andb_false_r; reflexivity.

Lemma typeChar_not_space2 a b : typeChar a = true -> strings.space2 a b = false.
Proof. intros H. apply typeChar_code in H. code_cases a. Qed.

Lemma typeChar_not_space3 a b c : typeChar a = true -> strings.space3 a b c = false.
Proof. intros H. apply typeChar_code in H. code_cases a. Qed.

Lemma typeChar_not_space2_last a b : typeChar a = true -> strings.space2 b a = false.
Proof. intros H. apply typeChar_code in H. code_cases a. Qed.

Lemma typeChar_not_space3_last a b c : typeChar a = true -> strings.space3 c b a = false.
Proof. intros H. apply typeChar_code in H. code_cases a. Qed.

Lemma trimLeft_first a (s : string) :
  typeChar a = true -> strings.trimLeft (String a s) = String a s.
Proof.
  intros H. cbn [strings.trimLeft]. rewrite (typeChar_not_space a H).
  destruct s as [|b s]; [reflexivity|]. rewrite (typeChar_not_space2 a b H).
  destruct s as [|c s]; [reflexivity|]. now rewrite (typeChar_not_space3 a b c H).
Qed.

Lemma trimLeftRev_first a (s : string) :
  typeChar a = true -> strings.trimLeftRev (String a s) = String a s.
Proof.
  intros H. cbn [strings.trimLeftRev]. rewrite (typeChar_not_space a H).
  destruct s as [|b s]; [reflexivity|]. rewrite (typeChar_not_space2_last a b H).
  destruct s as [|c s]; [reflexivity|]. now rewrite (typeChar_not_space3_last a b c H).
Qed.

Lemma rev_rev (s : string) :
  forall acc acc', strings.rev (strings.rev s acc) acc' = strings.rev acc (s ++ acc').
Proof.
  induction s as [|a s IH]; intros acc acc'; simpl; [reflexivity|].
  now rewrite IH.
Qed.

Lemma rev_last cls (s : string) :
  all cls s = true -> s <> EmptyString ->
  forall acc, exists z t, strings.rev s acc = String z t /\ cls z = true.
Proof.
  induction s as [|a s IH]; intros Hs Hne acc; [now elim Hne|].
  simpl in *. apply andb_true_iff in Hs as [Ha Hs].
  destruct s as [|b s]; [now exists a, acc|].
  apply IH; [exact Hs | discriminate].
Qed.

Lemma TrimSpace_typeName (t : string) : typeName t -> strings.TrimSpace t = t.
Proof.
  intros [Ht Hne]. unfold strings.TrimSpace, strings.trimRight.
  destruct t as [|a t]; [now elim Hne|].
  pose proof Ht as Ha. cbn [all] in Ha. apply andb_true_iff in Ha as [Ha _].
  rewrite (trimLeft_first a t Ha).
  destruct (rev_last typeChar (String a t) Ht Hne EmptyString) as (z & u & E & Hz).
  rewrite E, (trimLeftRev_first z u Hz), <- E, rev_rev.
  cbn [strings.rev]. now rewrite append_nil_r.
Qed.

Lemma Split_typeName (t : string) :
  all typeChar t = true -> strings.Split t Comma = [t].
Proof.
  unfold strings.Split, Comma.
  induction t as [|a t IH]; intros Ht; [reflexivity|].
  cbn [all] in Ht. apply andb_true_iff in Ht as [Ha Ht].
  cbn [strings.splitFrom]. unfold strings.HasPrefix. cbn [String.prefix].
  destruct (ascii_dec "," a) as [<-|_]; [discriminate Ha|].
  now rewrite (IH Ht).
Qed.

Lemma parseArgs_typeName add (t : string) rpc :
  typeName t -> strings.HasPrefix t "stream" = false ->
  parseArgs add (strings.Split t Comma) rpc = Returned (add rpc (NewParameter false t)).
Proof.
  intros Ht Hs. rewrite (Split_typeName t (proj1 Ht)).
  cbn [parseArgs]. unfold parseArg. rewrite Hs, (TrimSpace_typeName t Ht). reflexivity.
Qed.

Lemma typeName_clause (t : string) :
  typeName t ->
  all notCloseParen t = true /\ stops whitespace t = true /\ t <> EmptyString.
Proof.
  intros [Ht Hne].
  assert (Hc : forall a, typeChar a = true -> notCloseParen a = true /\ whitespace a = false).
  { intros a Ha. apply typeChar_code in Ha. unfold notCloseParen, whitespace.
    repeat match goal with
           | |- context [(code a =? ?n)%N] =>
               destruct (N.eqb_spec (code a) n); [lia|]
           end. now split. }
  repeat split; [|destruct t as [|a t]; [reflexivity|]|exact Hne].
  - apply (all_weaken typeChar); [apply Hc | exact Ht].
  - cbn [all stops] in *. apply andb_true_iff in Ht as [Ha _].
    now rewrite (proj2 (Hc a Ha)).
Qed.


(** *** Cutting a text that holds the separator once *)

Lemma HasPrefix_char c a (s : string) :
  strings.HasPrefix (String a s) (String c EmptyString) = Ascii.eqb c a.
Proof.
  unfold strings.HasPrefix. cbn [String.prefix].
  destruct (ascii_dec c a) as [->|H].
  - rewrite Ascii.eqb_refl. now destruct s.
  - symmetry. now apply Ascii.eqb_neq.
Qed.

Lemma Split_lacks c (s : string) :
  lacks c s = true -> strings.Split s (String c EmptyString) = [s].
Proof.
  unfold strings.Split, lacks.
  induction s as [|a s IH]; intros Hs; [reflexivity|].
  cbn [all] in Hs. apply andb_true_iff in Hs as [Ha Hs]. apply negb_true_iff in Ha.
  cbn [strings.splitFrom]. rewrite HasPrefix_char, Ha. now rewrite (IH Hs).
Qed.

Lemma Split_once c (a b : string) :
  lacks c a = true -> lacks c b = true ->
  strings.Split (a ++ String c b) (String c EmptyString) = [a; b].
Proof.
  intros Ha Hb. unfold strings.Split. unfold lacks in Ha.
  induction a as [|x a IH].
  - cbn [append strings.splitFrom]. rewrite HasPrefix_char, Ascii.eqb_refl.
    cbn [String.length Nat.sub].
    pose proof (Split_lacks c b Hb) as E. unfold strings.Split in E. now rewrite E.
  - cbn [all] in Ha. apply andb_true_iff in Ha as [Hx Ha]. apply negb_true_iff in Hx.
    cbn [append strings.splitFrom]. rewrite HasPrefix_char, Hx. now rewrite (IH Ha).
Qed.

Lemma indexFrom_once c (a b : string) :
  lacks c a = true ->
  forall pos, strings.indexFrom pos (String c EmptyString) (a ++ String c b)
              = Z.of_nat (pos + String.length a).
Proof.
  unfold lacks. induction a as [|x a IH]; intros Ha pos.
  - cbn [append strings.indexFrom]. rewrite HasPrefix_char, Ascii.eqb_refl.
    cbn [String.length]. now rewrite Nat.add_0_r.
  - cbn [all] in Ha. apply andb_true_iff in Ha as [Hx Ha]. apply negb_true_iff in Hx.
    cbn [append strings.indexFrom]. rewrite HasPrefix_char, Hx, (IH Ha).
    cbn [String.length]. now rewrite Nat.add_succ_r.
Qed.


(** *** The loops, as the tests and pulls of the source *)

Lemma scanBlock_Scan d ns out (scanner : Scanner) :
  scanBlock d ns out scanner =
  if Scan scanner
  then match ReadLine scanner with
       | Some (l, scanner') => scanBlock d ns out (l :: scanner')
       | None => Returned (out, scanner)
       end
  else Returned (out, scanner).
Proof. now destruct scanner. Qed.

Lemma accumulate_Scan d ns out name body count (scanner : Scanner) :
  accumulate d ns out name body count scanner =
  if Scan scanner
  then match ReadLine scanner with
       | Some (l, scanner') => accumulate d ns out name body count (l :: scanner')
       | None => Returned (flushOption ns out name body, scanner)
       end
  else Returned (flushOption ns out name body, scanner).
Proof. now destruct scanner. Qed.

(** A block that the source leaves open in the middle of an option. *)
Lemma Visit_exhausted fuel rv (l : Line) ns out (ls : list Line) (opt : Line) o
      (ls' : list Line) :
  declaration rv l ns = Returned out ->
  token_eqb (Token l) Semicolon = false ->
  forallb idle ls = true ->
  token_eqb (Token opt) CloseBrace = false ->
  strings.HasPrefix (Syntax opt) "option" = true ->
  optionStart opt = Returned o ->
  accumulating (braceCount o) ls' = true ->
  Visit (S fuel) rv (ls ++ opt :: ls')%list l ns =
  Returned (flushOption ns out (optionName o) (optionBody o ++ text ls'), []).
Proof.
  intros Hd Hl Hls Hc Ho Hs Ha.
  rewrite Visit_S, Hd. cbn [bind]. rewrite Hl.
  rewrite scanBlock_idle by exact Hls.
  rewrite scanBlock_cons, Hc, Ho, Hs. cbn [bind].
  now apply accumulate_exhausted.
Qed.

(** *** The submatches that the matcher reports *)

Lemma run_derives {A : Type} (r : Regexp) :
  forall (s : string) pos caps (k : string -> nat -> list span -> option A) res,
    run r s pos caps k = Some res ->
    exists w s' caps',
      s = w ++ s' /\ derives r w pos caps caps'
      /\ k s' (pos + String.length w)%nat caps' = Some res.
Proof.
  induction r as [text|cls|cls|n r IH|r1 IH1 r2 IH2]; intros s pos caps k res;
    cbn [run derives].
  - destruct (dropPrefix text s) as [s'|] eqn:E; [|discriminate].
    intros H. apply dropPrefix_Some in E. exists text, s', caps. auto.
  - intros H. apply star_sound in H as (w & s' & -> & Hw & Hk).
    exists w, s', caps. auto.
  - destruct s as [|a s]; [discriminate|].
    destruct (cls a) eqn:Ha; [|discriminate].
    intros H. apply star_sound in H as (w & s' & -> & Hw & Hk).
    exists (String a w), s', caps. cbn [all String.length append].
    rewrite Ha, Hw, Nat.add_succ_r. repeat split; auto. discriminate.
  - intros H. apply IH in H as (w & s' & c & -> & Hd & Hk).
    exists w, s'. eexists. split; [reflexivity|]. split; [|exact Hk]. eauto.
  - intros H. apply IH1 in H as (w1 & m & c & -> & Hd1 & H).
    apply IH2 in H as (w2 & s' & caps' & -> & Hd2 & Hk).
    exists (w1 ++ w2), s', caps'. rewrite append_assoc, length_append, Nat.add_assoc.
    split; [reflexivity|]. split; [|exact Hk].
    exists w1, w2, c. auto.
Qed.

Lemma findFrom_derives (r : Regexp) (s : string) :
  forall pos caps,
    findFrom r s pos = Some caps ->
    exists skipped w s' c,
      s = skipped ++ w ++ s'
      /\ derives r w (pos + String.length skipped)%nat
                 (repeat (O, O) (S (NumSubexp r))) c
      /\ caps = setCap 0 ((pos + String.length skipped)%nat,
                          (pos + String.length skipped + String.length w)%nat) c.
Proof.
  assert (here : forall s pos caps,
             matchAt r s pos = Some caps ->
             exists w s' c,
               s = w ++ s'
               /\ derives r w pos (repeat (O, O) (S (NumSubexp r))) c
               /\ caps = setCap 0 (pos, (pos + String.length w)%nat) c).
  { intros s0 pos caps H. unfold matchAt in H.
    apply run_derives in H as (w & s' & c & -> & Hd & [= <-]). eauto 6. }
  induction s as [|a s IH]; intros pos caps; cbn [findFrom].
  - destruct (matchAt r EmptyString pos) as [caps0|] eqn:E; [|discriminate].
    intros [= <-]. apply here in E as (w & s' & c & E & Hd & ->).
    exists EmptyString, w, s', c. cbn [String.length append].
    rewrite Nat.add_0_r. auto.
  - destruct (matchAt r (String a s) pos) as [caps0|] eqn:E.
    + intros [= <-]. apply here in E as (w & s' & c & E & Hd & ->).
      exists EmptyString, w, s', c. cbn [String.length append].
      rewrite Nat.add_0_r. auto.
    + intros H. apply IH in H as (skipped & w & s' & c & -> & Hd & ->).
      exists (String a skipped), w, s', c. cbn [String.length append].
      rewrite Nat.add_succ_r. auto.
Qed.

Lemma FindStringSubmatch_captured (s : string) :
  MatchString RpcLinePattern s = true ->
  exists whole name ins outs trailer,
    FindStringSubmatch RpcLinePattern s = [whole; name; ins; outs; trailer]
    /\ captured s whole name ins outs trailer.
Proof.
  unfold MatchString, FindStringSubmatch, FindStringSubmatchIndex.
  destruct (findFrom RpcLinePattern s 0) as [caps|] eqn:H; [intros _|discriminate].
  apply findFrom_derives in H as (before & w & after & c & Hs & Hd & Hc).
  unfold RpcLinePattern in Hd. cbn [derives NumSubexp Nat.max repeat] in Hd.
  destruct Hd as (w1 & ? & ? & -> & (-> & ->)
    & sp1 & ? & ? & -> & (H1 & N1 & ->)
    & name & ? & ? & -> & (? & (Hname & Nname & ->) & ->)
    & sp2 & ? & ? & -> & (H2 & ->)
    & ? & ? & ? & -> & (-> & ->)
    & sp3 & ? & ? & -> & (H3 & ->)
    & ins & ? & ? & -> & (? & (Hins & Nins & ->) & ->)
    & sp4 & ? & ? & -> & (H4 & ->)
    & ? & ? & ? & -> & (-> & ->)
    & sp5 & ? & ? & -> & (H5 & N5 & ->)
    & ? & ? & ? & -> & (-> & ->)
    & sp6 & ? & ? & -> & (H6 & ->)
    & ? & ? & ? & -> & (-> & ->)
    & sp7 & ? & ? & -> & (H7 & ->)
    & outs & ? & ? & -> & (? & (Houts & Nouts & ->) & ->)
    & sp8 & ? & ? & -> & (H8 & ->)
    & ? & trailer & ? & -> & (-> & ->)
    & ? & (Htr & ->) & ->).
  subst caps. cbn [setCap map fst snd].
  set (whole := "rpc" ++ _) in *.
  exists whole, name, ins, outs, trailer. split.
  - rewrite (substring_span s before whole after _ _ Hs);
      [|cbn; lia|cbn; lia].
    rewrite (substring_span s (before ++ "rpc" ++ sp1) name
               (sp2 ++ "(" ++ sp3 ++ ins ++ sp4 ++ ")" ++ sp5 ++ "returns" ++ sp6
                    ++ "(" ++ sp7 ++ outs ++ sp8 ++ ")" ++ trailer ++ after));
      [|rewrite Hs; unfold whole; now rewrite !append_assoc
       |rewrite !length_append; cbn [String.length]; lia|lia].
    rewrite (substring_span s (before ++ "rpc" ++ sp1 ++ name ++ sp2 ++ "(" ++ sp3) ins
               (sp4 ++ ")" ++ sp5 ++ "returns" ++ sp6
                    ++ "(" ++ sp7 ++ outs ++ sp8 ++ ")" ++ trailer ++ after));
      [|rewrite Hs; unfold whole; now rewrite !append_assoc
       |rewrite !length_append; cbn [String.length]; lia|lia].
    rewrite (substring_span s (before ++ "rpc" ++ sp1 ++ name ++ sp2 ++ "(" ++ sp3 ++ ins
                                      ++ sp4 ++ ")" ++ sp5 ++ "returns" ++ sp6 ++ "(" ++ sp7)
               outs (sp8 ++ ")" ++ trailer ++ after));
      [|rewrite Hs; unfold whole; now rewrite !append_assoc
       |rewrite !length_append; cbn [String.length]; lia|lia].
    rewrite (substring_span s (before ++ "rpc" ++ sp1 ++ name ++ sp2 ++ "(" ++ sp3 ++ ins
                                      ++ sp4 ++ ")" ++ sp5 ++ "returns" ++ sp6 ++ "(" ++ sp7
                                      ++ outs ++ sp8 ++ ")")
               trailer after);
      [|rewrite Hs; unfold whole; now rewrite !append_assoc
       |rewrite !length_append; cbn [String.length]; lia
       |lia].
    reflexivity.
  - exists before, sp1, sp2, sp3, sp4, sp5, sp6, sp7, sp8, after.
    unfold blank, clause. repeat split; auto.
Qed.

(** *** The outcomes of the parameter parser *)

Lemma indexFrom_bounds substr (s : string) :
  forall pos,
    strings.indexFrom pos substr s = -1
    \/ Z.of_nat pos <= strings.indexFrom pos substr s <= Z.of_nat (pos + String.length s).
Proof.
  induction s as [|a s IH]; intros pos; cbn [strings.indexFrom String.length].
  - destruct (strings.HasPrefix _ _); [right; lia | now left].
  - destruct (strings.HasPrefix _ _); [right; lia|].
    destruct (IH (S pos)) as [E|E]; [now left | right; lia].
Qed.

Lemma Index_bounds (s substr : string) :
  -1 <= strings.Index s substr <= Z.of_nat (String.length s).
Proof.
  unfold strings.Index. destruct (indexFrom_bounds substr s 0) as [E|E]; lia.
Qed.

Lemma slice_outcome (s : string) lo hi :
  hi <= Z.of_nat (String.length s) ->
  slice s lo hi =
  if (0 <=? lo) && (lo <=? hi)
  then Returned (substring (Z.to_nat lo) (Z.to_nat (hi - lo)) s)
  else Panicked "slice bounds out of range".
Proof.
  intros H. unfold slice. apply Z.leb_le in H. rewrite H. now rewrite andb_true_r.
Qed.

Lemma sliceFrom_Index (i substr : string) :
  sliceFrom i (strings.Index i substr) =
  if 0 <=? strings.Index i substr
  then Returned (substring (Z.to_nat (strings.Index i substr))
                           (Z.to_nat (Z.of_nat (String.length i) - strings.Index i substr)) i)
  else Panicked "slice bounds out of range".
Proof.
  unfold sliceFrom. rewrite slice_outcome by lia.
  pose proof (Index_bounds i substr) as [_ H]. apply Z.leb_le in H. rewrite H.
  now rewrite andb_true_r.
Qed.

Lemma parseArg_outcome (i : string) :
  if sliceable i
  then exists p, parseArg i = Returned p
                 /\ Streaming p = strings.HasPrefix i "stream"
  else parseArg i = Panicked "slice bounds out of range".
Proof.
  unfold sliceable, parseArg. destruct (strings.HasPrefix i "stream"); cbn [negb orb].
  - rewrite sliceFrom_Index. destruct (0 <=? _); cbn [bind]; eauto.
  - eauto.
Qed.

Lemma parseArgs_outcome add (args : list string) :
  forall rpc,
    if forallb sliceable args
    then exists ps,
        parseArgs add args rpc = Returned (fold_left add ps rpc)
        /\ Forall2 (fun i p => parseArg i = Returned p) args ps
    else parseArgs add args rpc = Panicked "slice bounds out of range".
Proof.
  induction args as [|i args IH]; intros rpc; cbn [forallb parseArgs].
  - exists []. split; [reflexivity | constructor].
  - pose proof (parseArg_outcome i) as Hi. destruct (sliceable i); cbn [andb].
    + destruct Hi as (p & Hp & _). rewrite Hp. cbn [bind].
      specialize (IH (add rpc p)). destruct (forallb sliceable args).
      * destruct IH as (ps & E & F). exists (p :: ps). split; [exact E|].
        now constructor.
      * exact IH.
    + now rewrite Hi.
Qed.

Lemma fold_AddInputParameter (ps : list RpcParameter) :
  forall rpc,
    fold_left AddInputParameter ps rpc =
    MkRpc (Namespace rpc) (Name rpc) (RpcComment rpc)
          (InputParameters rpc ++ ps) (ReturnParameters rpc) (Options rpc).
Proof.
  induction ps as [|p ps IH]; intros rpc; cbn [fold_left].
  - rewrite app_nil_r. now destruct rpc.
  - rewrite IH. cbn. now rewrite <- app_assoc.
Qed.

Lemma fold_AddReturnParameter (ps : list RpcParameter) :
  forall rpc,
    fold_left AddReturnParameter ps rpc =
    MkRpc (Namespace rpc) (Name rpc) (RpcComment rpc)
          (InputParameters rpc) (ReturnParameters rpc ++ ps) (Options rpc).
Proof.
  induction ps as [|p ps IH]; intros rpc; cbn [fold_left].
  - rewrite app_nil_r. now destruct rpc.
  - rewrite IH. cbn. now rewrite <- app_assoc.
Qed.

Lemma countFrom_nonneg substr (s : string) :
  forall skip, 0 <= strings.countFrom substr skip s.
Proof.
  induction s as [|a s IH]; intros skip; cbn [strings.countFrom]; [lia|].
  destruct skip; [|apply IH].
  destruct (strings.HasPrefix _ _); [specialize (IH (String.length substr - 1)%nat); lia | apply IH].
Qed.

Lemma length_push a (pieces : list string) :
  pieces <> [] -> List.length (strings.push a pieces) = List.length pieces.
Proof. destruct pieces; [now intros H | reflexivity]. Qed.

Lemma splitFrom_length sep (s : string) :
  forall skip,
    Z.of_nat (List.length (strings.splitFrom sep skip s)) = 1 + strings.countFrom sep skip s.
Proof.
  induction s as [|a s IH]; intros skip; cbn [strings.splitFrom strings.countFrom].
  - reflexivity.
  - destruct skip; [|apply IH].
    destruct (strings.HasPrefix _ _).
    + cbn [List.length]. rewrite Nat2Z.inj_succ, IH. lia.
    + rewrite length_push, IH; [reflexivity|].
      intros E. specialize (IH O). rewrite E in IH. cbn [List.length] in IH.
      pose proof (countFrom_nonneg sep s 0). lia.
Qed.

Lemma Split_length (s sep : string) :
  Z.of_nat (List.length (strings.Split s sep)) = 1 + strings.Count s sep.
Proof. apply splitFrom_length. Qed.

Lemma ParseInArgs_appends values rpc rpc' :
  ParseInArgs values rpc = Returned rpc' ->
  exists v ps,
    nth_error values 2 = Some v
    /\ Forall2 (fun i p => parseArg i = Returned p) (strings.Split v Comma) ps
    /\ Z.of_nat (List.length ps) = 1 + strings.Count v Comma
    /\ rpc' = MkRpc (Namespace rpc) (Name rpc) (RpcComment rpc)
                    (InputParameters rpc ++ ps) (ReturnParameters rpc) (Options rpc).
Proof.
  unfold ParseInArgs, at_index. destruct (nth_error values 2) as [v|]; [|discriminate].
  cbn [bind]. intros H. exists v.
  pose proof (parseArgs_outcome AddInputParameter (strings.Split v Comma) rpc) as Ho.
  destruct (forallb sliceable _); [|congruence].
  destruct Ho as (ps & E & F). exists ps. split; [reflexivity|]. split; [exact F|].
  split.
  - rewrite <- (Forall2_length F). apply Split_length.
  - rewrite E in H. injection H as <-. apply fold_AddInputParameter.
Qed.

Lemma ParseReturnArgs_appends values rpc rpc' :
  ParseReturnArgs values rpc = Returned rpc' ->
  exists v ps,
    nth_error values 3 = Some v
    /\ Forall2 (fun i p => parseArg i = Returned p) (strings.Split v Comma) ps
    /\ Z.of_nat (List.length ps) = 1 + strings.Count v Comma
    /\ rpc' = MkRpc (Namespace rpc) (Name rpc) (RpcComment rpc)
                    (InputParameters rpc) (ReturnParameters rpc ++ ps) (Options rpc).
Proof.
  unfold ParseReturnArgs, at_index. destruct (nth_error values 3) as [v|]; [|discriminate].
  cbn [bind]. intros H. exists v.
  pose proof (parseArgs_outcome AddReturnParameter (strings.Split v Comma) rpc) as Ho.
  destruct (forallb sliceable _); [|congruence].
  destruct Ho as (ps & E & F). exists ps. split; [reflexivity|]. split; [exact F|].
  split.
  - rewrite <- (Forall2_length F). apply Split_length.
  - rewrite E in H. injection H as <-. apply fold_AddReturnParameter.
Qed.

(** What the declaration step gives on a line that the matcher accepts. *)
Lemma declaration_accepted (l : Line) ns :
  CanVisit NewRpcVisitor l = true ->
  exists whole name ins outs trailer,
    FindStringSubmatch RpcLinePattern (Syntax l) = [whole; name; ins; outs; trailer]
    /\ captured (Syntax l) whole name ins outs trailer
    /\ if forallb sliceable (strings.Split ins Comma ++ strings.Split outs Comma)
       then exists inputs outputs,
           declaration NewRpcVisitor l ns =
           Returned (MkRpc ns name (Comment l) inputs outputs [])
           /\ Forall2 (fun i p => parseArg i = Returned p) (strings.Split ins Comma) inputs
           /\ Forall2 (fun i p => parseArg i = Returned p) (strings.Split outs Comma) outputs
       else declaration NewRpcVisitor l ns = Panicked "slice bounds out of range".
Proof.
  intros H. apply FindStringSubmatch_captured in H
    as (whole & name & ins & outs & trailer & E & Hc).
  exists whole, name, ins, outs, trailer. split; [exact E|]. split; [exact Hc|].
  unfold declaration, ParseInArgs, ParseReturnArgs.
  cbn [RpcLineMatcher NewRpcVisitor]. rewrite E. cbn [at_index nth_error bind].
  rewrite forallb_app.
  pose proof (parseArgs_outcome AddInputParameter (strings.Split ins Comma)
                (NewRpc ns name (Comment l))) as Hi.
  destruct (forallb sliceable (strings.Split ins Comma)); cbn [andb].
  - destruct Hi as (inputs & Ei & Fi). rewrite Ei. cbn [bind].
    pose proof (parseArgs_outcome AddReturnParameter (strings.Split outs Comma)
                  (fold_left AddInputParameter inputs (NewRpc ns name (Comment l)))) as Ho.
    destruct (forallb sliceable (strings.Split outs Comma)).
    + destruct Ho as (outputs & Eo & Fo). exists inputs, outputs.
      rewrite Eo, fold_AddReturnParameter, fold_AddInputParameter. auto.
    + exact Ho.
  - now rewrite Hi.
Qed.

Lemma declaration_rejected rv (l : Line) ns :
  CanVisit rv l = false -> declaration rv l ns = Panicked "index out of range".
Proof.
  unfold CanVisit, MatchString, declaration, FindStringSubmatch.
  now destruct (FindStringSubmatchIndex _ _).
Qed.

Lemma TrimSpace_space (b : string) :
  strings.TrimSpace (String " " b) = strings.TrimSpace b.
Proof. reflexivity. Qed.

Lemma substring_from (p q : string) :
  substring (String.length p) (String.length q) (p ++ q) = q.
Proof.
  rewrite <- (append_nil_r q) at 2.
  replace (String.length q) with (String.length p + String.length q - String.length p)%nat by lia.
  apply substring_span with (p := p) (q := EmptyString); auto.
Qed.

(** *** The name of an option *)

Lemma indexFrom_lacks c (s : string) :
  lacks c s = true ->
  forall pos, strings.indexFrom pos (String c EmptyString) s = -1.
Proof.
  unfold lacks. induction s as [|a s IH]; intros Hs pos; [reflexivity|].
  cbn [all] in Hs. apply andb_true_iff in Hs as [Ha Hs]. apply negb_true_iff in Ha.
  cbn [strings.indexFrom]. rewrite HasPrefix_char, Ha. now apply IH.
Qed.

Lemma lacks_append c (a b : string) :
  lacks c (a ++ b) = lacks c a && lacks c b.
Proof. apply all_append. Qed.

Lemma optionStart_name (l : Line) :
  if strings.Index (Syntax l) "(" <? strings.Index (Syntax l) ")"
  then exists o,
      optionStart l = Returned o
      /\ optionName o =
         substring (Z.to_nat (strings.Index (Syntax l) "(" + 1))
                   (Z.to_nat (strings.Index (Syntax l) ")"
                              - (strings.Index (Syntax l) "(" + 1)))
                   (Syntax l)
  else optionStart l = Panicked "slice bounds out of range".
Proof.
  unfold optionStart.
  pose proof (Index_bounds (Syntax l) "(") as [Hlo _].
  pose proof (Index_bounds (Syntax l) ")") as [_ Hhi].
  rewrite slice_outcome by exact Hhi.
  replace (0 <=? strings.Index (Syntax l) "(" + 1) with true
    by (symmetry; apply Z.leb_le; lia).
  cbn [andb].
  destruct (Z.ltb_spec (strings.Index (Syntax l) "(") (strings.Index (Syntax l) ")"))
    as [H|H].
  - replace (_ <=? _) with true by (symmetry; apply Z.leb_le; lia).
    cbn [bind].
    destruct (strings.Contains _ _); [|eauto].
    destruct (strings.Split (Syntax l) "=") as [|x [|y parts]]; cbn; eauto.
    destruct (1 <? _); eauto.
  - replace (_ <=? _) with false by (symmetry; apply Z.leb_gt; lia).
    reflexivity.
Qed.

Lemma Visit_option_line fuel rv (l : Line) ns out (ls : list Line) (opt : Line) sc :
  declaration rv l ns = Returned out ->
  token_eqb (Token l) Semicolon = false ->
  forallb idle ls = true ->
  token_eqb (Token opt) CloseBrace = false ->
  strings.HasPrefix (Syntax opt) "option" = true ->
  Visit (S fuel) rv (ls ++ opt :: sc)%list l ns =
  o <- optionStart opt ;;
  accumulate (Visit fuel NewRpcVisitor) ns out (optionName o) (optionBody o) (braceCount o) sc.
Proof.
  intros Hd Hl Hls Hc Ho.
  rewrite Visit_S, Hd. cbn [bind]. rewrite Hl.
  rewrite scanBlock_idle by exact Hls.
  now rewrite scanBlock_cons, Hc, Ho.
Qed.

(** *** The options that a scan records *)

Lemma flushOption_options ns out name body :
  exists added,
    Options (flushOption ns out name body) = (Options out ++ added)%list
    /\ Forall (accumulated name body) added.
Proof.
  unfold flushOption. destruct (0 <? _) eqn:E.
  - eexists. split; [reflexivity|]. constructor; [|constructor].
    repeat split; cbn [OptionIndex OptionBody OptionName].
    + intros H. rewrite H in E. discriminate E.
    + exists EmptyString. now rewrite append_nil_r.
  - exists []. split; [now rewrite app_nil_r | constructor].
Qed.

Lemma accumulated_more name body (t : string) o :
  accumulated name (body ++ t) o -> accumulated name body o.
Proof.
  intros (I & B & N & more & E). repeat split; auto.
  exists (t ++ more). now rewrite <- append_assoc.
Qed.

Lemma recorded_cons (l : Line) sc o : recorded sc o -> recorded (l :: sc) o.
Proof.
  intros (I & B & l' & Hin & F). repeat split; auto. exists l'. split; [now right | exact F].
Qed.

Lemma scan_recorded d ns (sc : Scanner) :
  (forall out r sc',
      scanBlock d ns out sc = Returned (r, sc') ->
      exists added, Options r = (Options out ++ added)%list /\ Forall (recorded sc) added)
  /\ (forall out name body count r sc',
         accumulate d ns out name body count sc = Returned (r, sc') ->
         exists added,
           Options r = (Options out ++ added)%list
           /\ Forall (fun o => accumulated name body o \/ recorded sc o) added).
Proof.
  assert (flushed : forall (l : Line) sc0 out name body (t : string) r,
             (exists added,
                 Options r = (Options (flushOption ns out name (body ++ t)) ++ added)%list
                 /\ Forall (recorded sc0) added) ->
             exists added,
               Options r = (Options out ++ added)%list
               /\ Forall (fun o => accumulated name body o \/ recorded (l :: sc0) o) added).
  { intros l sc0 out name body t r (added & E & F).
    destruct (flushOption_options ns out name (body ++ t)) as (first & E1 & F1).
    exists (first ++ added)%list. rewrite E, E1, app_assoc. split; [reflexivity|].
    apply Forall_app. split.
    - eapply Forall_impl; [|exact F1]. intros o Ho. left. now apply accumulated_more in Ho.
    - eapply Forall_impl; [|exact F]. intros o Ho. right. now apply recorded_cons. }
  induction sc as [|l sc [IHs IHa]]; split.
  - intros out r sc' [= <- _]. exists []. split; [now rewrite app_nil_r | constructor].
  - intros out name body count r sc' [= <- _].
    destruct (flushOption_options ns out name body) as (added & E & F).
    exists added. split; [exact E|]. eapply Forall_impl; [|exact F]. now left.
  - intros out r sc'. rewrite scanBlock_cons.
    destruct (token_eqb _ _) eqn:Hclose;
      [intros [= <- _]; exists []; split; [now rewrite app_nil_r | constructor]|].
    destruct (strings.HasPrefix _ _) eqn:Hopt.
    + intros H. apply bind_Returned in H as (st & Hst & H).
      apply IHa in H as (added & E & F). exists added. split; [exact E|].
      eapply Forall_impl; [|exact F]. intros o [(I & B & N & M)|Ho].
      * repeat split; auto. exists l. split; [now left|].
        split; [exact Hclose|]. split; [exact Hopt|]. exists st. auto.
      * now apply recorded_cons.
    + intros H. apply IHs in H as (added & E & F). exists added. split; [exact E|].
      eapply Forall_impl; [|exact F]. intros o. apply recorded_cons.
  - intros out name body count r sc'. rewrite accumulate_cons.
    destruct (startsDeclaration l).
    + assert (Hf : exists added,
                 Options (flushOption ns out name body) = (Options out ++ added)%list
                 /\ Forall (fun o => accumulated name body o \/ recorded (l :: sc) o) added).
      { destruct (flushOption_options ns out name body) as (added & E & F).
        exists added. split; [exact E|]. eapply Forall_impl; [|exact F]. now left. }
      destruct (CanVisit _ _).
      * intros H. apply bind_Returned in H as ([r2 sc2] & _ & [= <- _]). exact Hf.
      * intros [= <- _]. exact Hf.
    + destruct (_ =? _)%string.
      * intros H. apply IHs in H.
        apply (flushed l sc out name body EmptyString). now rewrite append_nil_r.
      * destruct (_ && _).
        -- intros H. apply IHs in H. now apply (flushed l sc out name body (Syntax l)).
        -- intros H. apply IHa in H as (added & E & F). exists added. split; [exact E|].
           eapply Forall_impl; [|exact F]. intros o [Ho|Ho].
           ++ left. now apply accumulated_more in Ho.
           ++ right. now apply recorded_cons.
Qed.

Lemma token_eqb_eq (a b : TokenKind) : token_eqb a b = true <-> a = b.
Proof. destruct a, b; cbn; split; (reflexivity || discriminate). Qed.

Lemma Visit_returned fuel sc (l : Line) ns r sc' :
  Visit fuel NewRpcVisitor sc l ns = Returned (r, sc') ->
  exists whole ins outs trailer,
    FindStringSubmatch RpcLinePattern (Syntax l) = [whole; Name r; ins; outs; trailer]
    /\ captured (Syntax l) whole (Name r) ins outs trailer
    /\ Namespace r = ns /\ RpcComment r = Comment l
    /\ Forall2 (fun i p => parseArg i = Returned p)
               (strings.Split ins Comma) (InputParameters r)
    /\ Forall2 (fun i p => parseArg i = Returned p)
               (strings.Split outs Comma) (ReturnParameters r)
    /\ (Token l = Semicolon -> sc' = sc /\ Options r = []).
Proof.
  destruct fuel as [|fuel]; [discriminate|]. rewrite Visit_S.
  intros H. apply bind_Returned in H as (out & Hd & H).
  destruct (CanVisit NewRpcVisitor l) eqn:C;
    [|rewrite (declaration_rejected _ _ ns C) in Hd; discriminate].
  destruct (declaration_accepted l ns C)
    as (whole & name & ins & outs & trailer & Ev & Hc & Ho).
  destruct (forallb sliceable _); [|congruence].
  destruct Ho as (inputs & outputs & E & Fi & Fo).
  rewrite E in Hd. injection Hd as <-.
  exists whole, ins, outs, trailer.
  destruct (token_eqb (Token l) Semicolon) eqn:T.
  - injection H as <- <-. cbn. repeat (split; [assumption || reflexivity|]).
    reflexivity.
  - apply (proj1 (scan_extends _ ns sc)) in H as (N & M & Cm & I & R & _).
    rewrite N, M, Cm, I, R. cbn.
    do 6 (split; [assumption || reflexivity|]).
    intros HT. apply token_eqb_eq in HT. congruence.
Qed.

(** *** An option that no line completes *)

Lemma accumulating_unended (ls : list Line) :
  forallb unended ls = true -> forall count, accumulating count ls = true.
Proof.
  induction ls as [|l ls IH]; intros H count; [reflexivity|].
  cbn [forallb] in H. apply andb_true_iff in H as [Hl Hls].
  unfold unended in Hl. apply andb_true_iff in Hl as [Ha Ht].
  cbn [accumulating]. unfold completes.
  apply negb_true_iff in Ht. rewrite Ha, Ht. cbn [andb negb]. now apply IH.
Qed.

(** *** A call reads no further than the lines it pulls *)

Lemma app_same_tail {A : Type} (xs ys : list A) : (xs ++ ys)%list = ys -> xs = [].
Proof.
  intros H. apply (f_equal (@List.length A)) in H. rewrite length_app in H.
  destruct xs; [reflexivity | cbn in H; lia].
Qed.

Lemma scan_advances d ns :
  (forall sc l ns' r sc', d sc l ns' = Returned (r, sc') ->
                          exists pulled, sc = (pulled ++ sc')%list) ->
  forall (l : Line) (sc : Scanner),
    (forall out r sc', scanBlock d ns out (l :: sc) = Returned (r, sc') ->
                       exists pulled, sc = (pulled ++ sc')%list)
    /\ (forall out name body count r sc',
           accumulate d ns out name body count (l :: sc) = Returned (r, sc') ->
           exists pulled, sc = (pulled ++ sc')%list).
Proof.
  intros Hd l sc. destruct (scan_suffix d ns Hd sc) as [Hs Ha]. split.
  - intros out r sc'. rewrite scanBlock_cons.
    destruct (token_eqb _ _); [intros [= _ <-]; now exists []|].
    destruct (strings.HasPrefix _ _); [|apply Hs].
    intros H. apply bind_Returned in H as (o & _ & H). eauto.
  - intros out name body count r sc'. rewrite accumulate_cons.
    destruct (startsDeclaration l).
    + destruct (CanVisit _ _).
      * intros H. apply bind_Returned in H as ([r2 sc2] & H2 & [= _ <-]). eauto.
      * intros [= _ <-]. now exists [].
    + destruct (_ =? _)%string; [apply Hs|].
      destruct (_ && _); [apply Hs | apply Ha].
Qed.

Lemma not_own_tail {A : Type} (x : A) (xs pulled : list A) :
  xs = (pulled ++ x :: xs)%list -> False.
Proof.
  intros H. apply (f_equal (@List.length A)) in H.
  rewrite length_app in H. cbn in H. lia.
Qed.

Lemma scan_local d ns :
  (forall sc l ns' r sc', d sc l ns' = Returned (r, sc') ->
                          exists pulled, sc = (pulled ++ sc')%list) ->
  (forall pulled rest l ns' r,
      d (pulled ++ rest)%list l ns' = Returned (r, rest) -> rest <> [] ->
      forall other, d (pulled ++ other)%list l ns' = Returned (r, other)) ->
  forall (rest : Scanner), rest <> [] ->
  forall (pulled : list Line),
    (forall out r,
        scanBlock d ns out (pulled ++ rest)%list = Returned (r, rest) ->
        forall other, scanBlock d ns out (pulled ++ other)%list = Returned (r, other))
    /\ (forall out name body count r,
           accumulate d ns out name body count (pulled ++ rest)%list = Returned (r, rest) ->
           forall other,
             accumulate d ns out name body count (pulled ++ other)%list = Returned (r, other)).
Proof.
  intros Hsuf Hloc rest Hne.
  induction pulled as [|l pulled [IHs IHa]].
  - destruct rest as [|x rest]; [now elim Hne|]. cbn [app].
    destruct (scan_advances d ns Hsuf x rest) as [Hs Ha]. split.
    + intros out r H. apply Hs in H as (p & H). now apply not_own_tail in H.
    + intros out name body count r H. apply Ha in H as (p & H). now apply not_own_tail in H.
  - cbn [app]. split.
    + intros out r H other. rewrite scanBlock_cons in H |- *.
      destruct (token_eqb _ _).
      * injection H as <- H. apply app_same_tail in H. now subst pulled.
      * destruct (strings.HasPrefix _ _); [|now apply IHs].
        destruct (optionStart l); cbn [bind] in H |- *;
          [now apply IHa | discriminate | discriminate].
    + intros out name body count r H other. rewrite accumulate_cons in H |- *.
      destruct (startsDeclaration l).
      * destruct (CanVisit _ _).
        -- apply bind_Returned in H as ([r2 sc2] & H2 & [= <- ->]).
           now rewrite (Hloc _ _ _ _ _ H2 Hne other).
        -- injection H as <- H. apply app_same_tail in H. now subst pulled.
      * destruct (_ =? _)%string; [now apply IHs|].
        destruct (_ && _); [now apply IHs | now apply IHa].
Qed.

Lemma Visit_local_all fuel :
  forall rv (pulled rest : list Line) l ns r,
    Visit fuel rv (pulled ++ rest)%list l ns = Returned (r, rest) -> rest <> [] ->
    forall other, Visit fuel rv (pulled ++ other)%list l ns = Returned (r, other).
Proof.
  induction fuel as [|fuel IH]; intros rv pulled rest l ns r; [discriminate|].
  rewrite Visit_S. intros H Hne other. rewrite Visit_S.
  destruct (declaration rv l ns) as [out| |]; cbn [bind] in *; try discriminate.
  destruct (token_eqb _ _).
  - injection H as <- H. apply app_same_tail in H. now subst pulled.
  - assert (Hsuf : forall sc0 l0 ns0 r0 sc0',
               Visit fuel NewRpcVisitor sc0 l0 ns0 = Returned (r0, sc0') ->
               exists p0, sc0 = (p0 ++ sc0')%list)
      by (intros sc0 l0 ns0 r0 sc0'; apply Visit_suffix).
    assert (Hloc : forall p0 rest0 l0 ns0 r0,
               Visit fuel NewRpcVisitor (p0 ++ rest0)%list l0 ns0 = Returned (r0, rest0) ->
               rest0 <> [] ->
               forall other0,
                 Visit fuel NewRpcVisitor (p0 ++ other0)%list l0 ns0 = Returned (r0, other0))
      by (intros p0 rest0 l0 ns0 r0; apply IH).
    exact (proj1 (scan_local _ ns Hsuf Hloc rest Hne pulled) out r H other).
Qed.

(** *** Blocks whose options are all completed *)

Lemma accumulate_ending d ns out name body count (ls : list Line) (l : Line)
      (rest : list Line) body' :
  accumulating count ls = true ->
  ending (balance count ls) (body ++ text ls) l = Some body' ->
  accumulate d ns out name body count (ls ++ l :: rest)%list =
  scanBlock d ns (flushOption ns out name body') rest.
Proof.
  intros Hls He. rewrite accumulate_run by exact Hls.
  rewrite accumulate_cons. unfold ending in He.
  destruct (startsDeclaration l); [discriminate|].
  destruct (_ =? _)%string; [now injection He as <-|].
  rewrite count_braces. unfold completes in He.
  destruct (_ && _); [now injection He as <- | discriminate].
Qed.

Lemma scanBlock_items d ns (items : list (Line + OptionLines)) :
  forall out r rest,
    blockOptions ns items out = Some r ->
    scanBlock d ns out (blockLines items ++ rest)%list = scanBlock d ns r rest.
Proof.
  induction items as [|[l|g] items IH]; intros out r rest; cbn [blockOptions blockLines].
  - now intros [= <-].
  - destruct (idle l) eqn:Hl; [|discriminate]. intros H.
    change ((l :: blockLines items) ++ rest)%list
      with ([l] ++ (blockLines items ++ rest))%list.
    rewrite scanBlock_idle by (cbn [forallb]; now rewrite Hl). now apply IH.
  - unfold optionOf.
    destruct (token_eqb (Token (first g)) CloseBrace) eqn:Hc; [discriminate|].
    destruct (strings.HasPrefix (Syntax (first g)) "option") eqn:Ho; [|discriminate].
    destruct (optionStart (first g)) as [o| |] eqn:Hs; try discriminate.
    destruct (accumulating (braceCount o) (middle g)) eqn:Ha; [|discriminate].
    destruct (ending _ _ (last g)) as [body|] eqn:He; [|discriminate].
    intros H. rewrite <- app_assoc. cbn [app].
    rewrite scanBlock_cons, Hc, Ho, Hs. cbn [bind].
    rewrite <- app_assoc. cbn [app].
    rewrite (accumulate_ending d ns out (optionName o) (optionBody o) (braceCount o)
               (middle g) (last g) _ body Ha He).
    now apply IH.
Qed.

(** *** What the type names hold *)

Lemma string_length_ind (P : string -> Prop) :
  (forall s, (forall t, (String.length t < String.length s)%nat -> P t) -> P s) ->
  forall s, P s.
Proof.
  intros H s. remember (String.length s) as n eqn:E.
  revert s E. induction n as [n IH] using (well_founded_induction Wf_nat.lt_wf).
  intros s ->. apply H. intros t Ht. now apply (IH _ Ht).
Qed.

Lemma trimLeft_suffix (s : string) : exists pre, s = pre ++ strings.trimLeft s.
Proof.
  induction s as [s IH] using string_length_ind.
  destruct s as [|a [|b [|c s3]]]; cbn [strings.trimLeft].
  - now exists EmptyString.
  - destruct (strings.asciiSpace a); [now exists (String a EmptyString) | now exists EmptyString].
  - destruct (strings.asciiSpace a).
    + destruct (IH (String b EmptyString)) as [pre E]; [cbn; lia|].
      exists (String a pre). cbn [append]. f_equal. exact E.
    + destruct (strings.space2 a b); [now exists (String a (String b EmptyString))|].
      now exists EmptyString.
  - destruct (strings.asciiSpace a).
    + destruct (IH (String b (String c s3))) as [pre E]; [cbn; lia|].
      exists (String a pre). cbn [append]. f_equal. exact E.
    + destruct (strings.space2 a b).
      * destruct (IH (String c s3)) as [pre E]; [cbn; lia|].
        exists (String a (String b pre)). cbn [append]. do 2 f_equal. exact E.
      * destruct (strings.space3 a b c); [|now exists EmptyString].
        destruct (IH s3) as [pre E]; [cbn; lia|].
        exists (String a (String b (String c pre))). cbn [append]. do 3 f_equal. exact E.
Qed.

Lemma trimLeftRev_suffix (s : string) : exists pre, s = pre ++ strings.trimLeftRev s.
Proof.
  induction s as [s IH] using string_length_ind.
  destruct s as [|a [|b [|c s3]]]; cbn [strings.trimLeftRev].
  - now exists EmptyString.
  - destruct (strings.asciiSpace a); [now exists (String a EmptyString) | now exists EmptyString].
  - destruct (strings.asciiSpace a).
    + destruct (IH (String b EmptyString)) as [pre E]; [cbn; lia|].
      exists (String a pre). cbn [append]. f_equal. exact E.
    + destruct (strings.space2 b a); [now exists (String a (String b EmptyString))|].
      now exists EmptyString.
  - destruct (strings.asciiSpace a).
    + destruct (IH (String b (String c s3))) as [pre E]; [cbn; lia|].
      exists (String a pre). cbn [append]. f_equal. exact E.
    + destruct (strings.space2 b a).
      * destruct (IH (String c s3)) as [pre E]; [cbn; lia|].
        exists (String a (String b pre)). cbn [append]. do 2 f_equal. exact E.
      * destruct (strings.space3 c b a); [|now exists EmptyString].
        destruct (IH s3) as [pre E]; [cbn; lia|].
        exists (String a (String b (String c pre))). cbn [append]. do 3 f_equal. exact E.
Qed.

Lemma not_own_suffix (pre s t : string) :
  t = pre ++ s -> (String.length t < String.length s)%nat -> False.
Proof. intros ->. rewrite length_append. lia. Qed.

(** Trimming stops where it stops: the result is trimmed no further. *)
Lemma trimLeft_idem (s : string) :
  strings.trimLeft (strings.trimLeft s) = strings.trimLeft s.
Proof.
  induction s as [s IH] using string_length_ind.
  destruct s as [|a [|b [|c s3]]]; [reflexivity| | |].
  - cbn [strings.trimLeft]. destruct (strings.asciiSpace a) eqn:Ha; [reflexivity|].
    cbn [strings.trimLeft]. now rewrite Ha.
  - cbn [strings.trimLeft]. destruct (strings.asciiSpace a) eqn:Ha.
    + apply (IH (String b EmptyString)). cbn; lia.
    + destruct (strings.space2 a b) eqn:Hb; [reflexivity|].
      cbn [strings.trimLeft]. now rewrite Ha, Hb.
  - cbn [strings.trimLeft]. destruct (strings.asciiSpace a) eqn:Ha.
    + apply (IH (String b (String c s3))). cbn; lia.
    + destruct (strings.space2 a b) eqn:Hb.
      * apply (IH (String c s3)). cbn; lia.
      * destruct (strings.space3 a b c) eqn:Hc.
        -- apply (IH s3). cbn; lia.
        -- cbn [strings.trimLeft]. now rewrite Ha, Hb, Hc.
Qed.

Lemma trimLeftRev_idem (s : string) :
  strings.trimLeftRev (strings.trimLeftRev s) = strings.trimLeftRev s.
Proof.
  induction s as [s IH] using string_length_ind.
  destruct s as [|a [|b [|c s3]]]; [reflexivity| | |].
  - cbn [strings.trimLeftRev]. destruct (strings.asciiSpace a) eqn:Ha; [reflexivity|].
    cbn [strings.trimLeftRev]. now rewrite Ha.
  - cbn [strings.trimLeftRev]. destruct (strings.asciiSpace a) eqn:Ha.
    + apply (IH (String b EmptyString)). cbn; lia.
    + destruct (strings.space2 b a) eqn:Hb; [reflexivity|].
      cbn [strings.trimLeftRev]. now rewrite Ha, Hb.
  - cbn [strings.trimLeftRev]. destruct (strings.asciiSpace a) eqn:Ha.
    + apply (IH (String b (String c s3))). cbn; lia.
    + destruct (strings.space2 b a) eqn:Hb.
      * apply (IH (String c s3)). cbn; lia.
      * destruct (strings.space3 c b a) eqn:Hc.
        -- apply (IH s3). cbn; lia.
        -- cbn [strings.trimLeftRev]. now rewrite Ha, Hb, Hc.
Qed.

Lemma rev_involutive (s : string) :
  strings.rev (strings.rev s EmptyString) EmptyString = s.
Proof. rewrite rev_rev. cbn [strings.rev]. apply append_nil_r. Qed.

Lemma rev_acc (s : string) :
  forall acc, strings.rev s acc = strings.rev s EmptyString ++ acc.
Proof.
  induction s as [|a s IH]; intros acc; cbn [strings.rev]; [reflexivity|].
  rewrite (IH (String a acc)), (IH (String a EmptyString)), append_assoc. reflexivity.
Qed.

Lemma rev_append (a b : string) :
  strings.rev (a ++ b) EmptyString = strings.rev b EmptyString ++ strings.rev a EmptyString.
Proof.
  induction a as [|x a IH]; cbn [append strings.rev].
  - now rewrite append_nil_r.
  - rewrite (rev_acc (a ++ b)), (rev_acc a), IH, append_assoc. reflexivity.
Qed.

Lemma trimRight_prefix (s : string) : exists post, s = strings.trimRight s ++ post.
Proof.
  unfold strings.trimRight.
  destruct (trimLeftRev_suffix (strings.rev s EmptyString)) as [pre E].
  exists (strings.rev pre EmptyString).
  rewrite <- rev_append, <- E. symmetry. apply rev_involutive.
Qed.

Lemma trimRight_idem (s : string) :
  strings.trimRight (strings.trimRight s) = strings.trimRight s.
Proof.
  unfold strings.trimRight. now rewrite rev_involutive, trimLeftRev_idem.
Qed.

(** A string from which nothing is trimmed on the left starts with no
    white space, and neither does a prefix of it: a prefix cut inside
    what could be the encoding of a white-space rune starts with bytes
    that encode none. *)
Lemma trimLeft_stuck (t : string) :
  strings.trimLeft t = t ->
  match t with
  | EmptyString => True
  | String a t1 =>
      strings.asciiSpace a = false
      /\ match t1 with
         | EmptyString => True
         | String b t2 =>
             strings.space2 a b = false
             /\ match t2 with
                | EmptyString => True
                | String c _ => strings.space3 a b c = false
                end
         end
  end.
Proof.
  destruct t as [|a t1]; [easy|].
  cbn [strings.trimLeft]. destruct (strings.asciiSpace a).
  - intros E. destruct (trimLeft_suffix t1) as [pre E']. rewrite E in E'.
    exfalso. apply (not_own_suffix pre (String a t1) t1 E'). cbn; lia.
  - intros E. split; [reflexivity|]. destruct t1 as [|b t2]; [easy|].
    destruct (strings.space2 a b).
    + destruct (trimLeft_suffix t2) as [pre E']. rewrite E in E'.
      exfalso. apply (not_own_suffix pre (String a (String b t2)) t2 E'). cbn; lia.
    + split; [reflexivity|]. destruct t2 as [|c t3]; [easy|].
      destruct (strings.space3 a b c); [|reflexivity].
      destruct (trimLeft_suffix t3) as [pre E']. rewrite E in E'.
      exfalso. apply (not_own_suffix pre (String a (String b (String c t3))) t3 E'). cbn; lia.
Qed.

Lemma trimLeft_of_prefix (t p post : string) :
  strings.trimLeft t = t -> t = p ++ post -> strings.trimLeft p = p.
Proof.
  intros Ht ->. apply trimLeft_stuck in Ht.
  destruct p as [|a [|b [|c p3]]]; cbn [append] in Ht; cbn [strings.trimLeft].
  - reflexivity.
  - destruct Ht as [-> _]. reflexivity.
  - destruct Ht as [-> [-> _]]. reflexivity.
  - destruct Ht as [-> [-> ->]]. reflexivity.
Qed.

Lemma TrimSpace_idem (s : string) :
  strings.TrimSpace (strings.TrimSpace s) = strings.TrimSpace s.
Proof.
  unfold strings.TrimSpace.
  destruct (trimRight_prefix (strings.trimLeft s)) as [post E].
  rewrite (trimLeft_of_prefix _ _ post (trimLeft_idem s) E).
  apply trimRight_idem.
Qed.

Lemma all_TrimSpace cls (s : string) :
  all cls s = true -> all cls (strings.TrimSpace s) = true.
Proof.
  unfold strings.TrimSpace. intros H.
  destruct (trimLeft_suffix s) as [pre E]. rewrite E, all_append in H.
  apply andb_true_iff in H as [_ H].
  destruct (trimRight_prefix (strings.trimLeft s)) as [post E'].
  rewrite E', all_append in H. now apply andb_true_iff in H as [H _].
Qed.

Lemma all_substring cls (s : string) :
  all cls s = true -> forall n m, all cls (substring n m s) = true.
Proof.
  induction s as [|a s IH]; intros H n m.
  - now destruct n, m.
  - cbn [all] in H. apply andb_true_iff in H as [Ha Hs].
    destruct n as [|n]; cbn [substring].
    + destruct m as [|m]; [reflexivity|]. cbn [all]. now rewrite Ha, IH.
    + now apply IH.
Qed.

(** No piece of a string cut at a character holds that character. *)
Lemma Split_pieces c (s : string) :
  Forall (fun piece => lacks c piece = true) (strings.Split s (String c EmptyString)).
Proof.
  unfold strings.Split, lacks. induction s as [|a s IH]; cbn [strings.splitFrom].
  - now constructor.
  - rewrite HasPrefix_char. cbn [String.length Nat.sub].
    destruct (Ascii.eqb c a) eqn:E.
    + now constructor.
    + destruct (strings.splitFrom (String c EmptyString) 0 s) as [|piece rest];
        cbn [strings.push].
      * constructor; [cbn [all]; now rewrite E | constructor].
      * inversion IH as [|? ? Hp Hr]; subst.
        constructor; [cbn [all]; now rewrite E, Hp | exact Hr].
Qed.

Lemma parseArg_trimmed (i : string) p :
  lacks "," i = true -> parseArg i = Returned p -> trimmed (TypeName p).
Proof.
  unfold parseArg, sliceFrom, slice, trimmed, lacks. intros Hi.
  destruct (strings.HasPrefix i "stream").
  - destruct (_ && _); cbn [bind]; [|discriminate].
    intros [= <-]. cbn [TypeName]. split; [|apply TrimSpace_idem].
    apply all_TrimSpace. now apply all_substring.
  - intros [= <-]. cbn [TypeName]. split; [|apply TrimSpace_idem].
    now apply all_TrimSpace.
Qed.

Lemma Forall2_trimmed (args : list string) :
  forall ps,
    Forall (fun i => lacks "," i = true) args ->
    Forall2 (fun i p => parseArg i = Returned p) args ps ->
    Forall (fun p => trimmed (TypeName p)) ps.
Proof.
  induction args as [|i args IH]; intros ps Ha H; inversion H; subst; [constructor|].
  inversion Ha; subst. constructor; [now apply (parseArg_trimmed i) | now apply IH].
Qed.


(** *** A pulled line that starts a declaration *)

Lemma accumulate_starts fuel ns out name body count (l : Line) (sc : Scanner) :
  startsDeclaration l = true ->
  accumulate (Visit fuel NewRpcVisitor) ns out name body count (l :: sc) =
  if CanVisit NewRpcVisitor l
  then match Visit fuel NewRpcVisitor sc l ns with
       | Returned (_, sc') => Returned (flushOption ns out name body, sc')
       | Panicked msg => Panicked msg
       | OutOfFuel => OutOfFuel
       end
  else Returned (flushOption ns out name body, sc).
Proof.
  intros Hl. rewrite accumulate_cons, Hl.
  destruct (CanVisit NewRpcVisitor l); [|reflexivity].
  now destruct (Visit fuel NewRpcVisitor sc l ns) as [[r sc']| |].
Qed.

(** *** A streaming parameter *)

Lemma lacks_cut c (s : string) :
  lacks c s = false -> exists a b, s = a ++ String c b /\ lacks c a = true.
Proof.
  unfold lacks. induction s as [|x s IH]; [discriminate|].
  cbn [all]. destruct (Ascii.eqb c x) eqn:E; cbn [negb andb].
  - intros _. apply Ascii.eqb_eq in E as <-. now exists EmptyString, s.
  - intros H. destruct (IH H) as (a & b & -> & Ha).
    exists (String x a), b. split; [reflexivity|]. cbn [all]. now rewrite E.
Qed.

Lemma lacks_class (cls : ascii -> bool) c (w : string) :
  cls c = false -> all cls w = true -> lacks c w = true.
Proof.
  intros Hc. unfold lacks. apply all_weaken. intros a Ha.
  destruct (Ascii.eqb_spec c a) as [->|_]; [congruence | reflexivity].
Qed.

Lemma whitespace_asciiSpace a : whitespace a = true -> strings.asciiSpace a = true.
Proof.
  unfold whitespace, strings.asciiSpace. change (strings.code a) with (code a). intros H.
  repeat (apply orb_true_iff in H as [H|H]); apply N.eqb_eq in H; now rewrite H.
Qed.

Lemma trimLeft_blank (ws t : string) :
  blank ws -> strings.trimLeft (ws ++ t) = strings.trimLeft t.
Proof.
  unfold blank. induction ws as [|a ws IH]; intros H; [reflexivity|].
  cbn [all] in H. apply andb_true_iff in H as [Ha Hs].
  cbn [append strings.trimLeft]. rewrite (whitespace_asciiSpace a Ha). now apply IH.
Qed.

Lemma TrimSpace_blank (ws t : string) :
  blank ws -> typeName t -> strings.TrimSpace (ws ++ t) = t.
Proof.
  intros Hw Ht. unfold strings.TrimSpace. rewrite (trimLeft_blank ws t Hw).
  now apply TrimSpace_typeName.
Qed.

Lemma HasPrefix_append (p s : string) : strings.HasPrefix (p ++ s) p = true.
Proof.
  unfold strings.HasPrefix. induction p as [|a p IH]; cbn [append String.prefix].
  - now destruct s.
  - now destruct (ascii_dec a a).
Qed.

Lemma parseArg_from_space (a b : string) :
  strings.HasPrefix (a ++ " " ++ b) "stream" = true ->
  lacks " " a = true ->
  parseArg (a ++ " " ++ b) = Returned (NewParameter true (strings.TrimSpace b)).
Proof.
  intros Hp Ha. unfold parseArg. rewrite Hp, sliceFrom_Index.
  unfold strings.Index, Space.
  change (a ++ " " ++ b) with (a ++ String " " b).
  rewrite (indexFrom_once " " a b Ha). cbn [Nat.add].
  replace (0 <=? Z.of_nat (String.length a)) with true by (symmetry; apply Z.leb_le; lia).
  cbn [bind]. rewrite Nat2Z.id, length_append.
  replace (Z.to_nat _) with (String.length (String " " b)) by lia.
  now rewrite substring_from, TrimSpace_space.
Qed.

Lemma parseArg_unspaced (i : string) :
  strings.HasPrefix i "stream" = true -> lacks " " i = true ->
  parseArg i = Panicked "slice bounds out of range".
Proof.
  intros Hp Hi. unfold parseArg. rewrite Hp, sliceFrom_Index.
  unfold strings.Index, Space. now rewrite (indexFrom_lacks " " i Hi).
Qed.

(** The segment made of [stream], blanks and a type name: the type is
    found when one of the blanks is a space. *)
Lemma parseArg_stream (sep A : string) :
  blank sep -> typeName A ->
  parseArg ("stream" ++ sep ++ A) =
  if lacks " " sep then Panicked "slice bounds out of range"
  else Returned (NewParameter true A).
Proof.
  intros Hs HA.
  assert (LA : lacks " " A = true) by (apply (lacks_class typeChar); [reflexivity | apply HA]).
  destruct (lacks " " sep) eqn:L.
  - apply parseArg_unspaced; [apply HasPrefix_append|].
    change ("stream" ++ sep ++ A) with ("stream" ++ (sep ++ A)).
    now rewrite !lacks_append, L, LA.
  - destruct (lacks_cut " " sep L) as (a & b & -> & Ha).
    unfold blank in Hs. rewrite all_append in Hs.
    apply andb_true_iff in Hs as [_ Hb]. cbn [all] in Hb.
    apply andb_true_iff in Hb as [_ Hb].
    replace ("stream" ++ (a ++ String " " b) ++ A)
      with (("stream" ++ a) ++ " " ++ (b ++ A))
      by (rewrite !append_assoc; reflexivity).
    rewrite parseArg_from_space.
    + now rewrite (TrimSpace_blank b A Hb HA).
    + rewrite !append_assoc. apply HasPrefix_append.
    + now rewrite lacks_append, Ha.
Qed.

Lemma declaration_stream (name sep A B : string) comment tok ns :
  all word name = true -> name <> EmptyString ->
  blank sep -> sep <> EmptyString -> typeName A -> typeName B ->
  declaration NewRpcVisitor (NewLine (streamDeclaration name sep A B) comment tok) ns =
  if lacks " " sep || strings.HasPrefix B "stream"
  then Panicked "slice bounds out of range"
  else Returned (MkRpc ns name comment [NewParameter true A] [NewParameter false B] []).
Proof.
  intros Hname Hn Hs Ns HA HB.
  destruct (typeName_clause A HA) as (A1 & _ & _).
  destruct (typeName_clause B HB) as (B1 & B2 & B3).
  assert (I1 : all notCloseParen ("stream" ++ sep ++ A) = true).
  { change ("stream" ++ sep ++ A) with ("stream" ++ (sep ++ A)).
    rewrite !all_append, A1, (all_weaken whitespace notCloseParen sep
                                whitespace_notCloseParen Hs). reflexivity. }
  assert (I2 : lacks "," ("stream" ++ sep ++ A) = true).
  { change ("stream" ++ sep ++ A) with ("stream" ++ (sep ++ A)).
    rewrite !lacks_append, (lacks_class whitespace "," sep eq_refl Hs),
      (lacks_class typeChar "," A eq_refl (proj1 HA)). reflexivity. }
  destruct (FindStringSubmatch_declaration " " name EmptyString EmptyString
              ("stream" ++ sep ++ A) " " " " EmptyString B " {")
    as (whole & rest & E); try reflexivity; try discriminate; auto.
  assert (E' : FindStringSubmatch RpcLinePattern (streamDeclaration name sep A B) =
               [whole; name; "stream" ++ sep ++ A; B; rest]) by exact E.
  unfold declaration, ParseInArgs, ParseReturnArgs.
  cbn [Syntax Comment Token RpcLineMatcher NewRpcVisitor]. rewrite E'.
  cbn [at_index nth_error bind].
  unfold Comma. rewrite (Split_lacks "," _ I2). cbn [parseArgs].
  rewrite (parseArg_stream sep A Hs HA).
  destruct (lacks " " sep); [reflexivity|]. cbn [bind orb].
  fold Comma. destruct (strings.HasPrefix B "stream") eqn:SB.
  - rewrite (Split_typeName B (proj1 HB)). cbn [parseArgs].
    rewrite parseArg_unspaced; [reflexivity | exact SB|].
    apply (lacks_class typeChar); [reflexivity | apply HB].
  - now rewrite (parseArgs_typeName _ B _ HB SB).
Qed.

(* ================================================================== *)
(** ** The properties of the recognizer *)

(** C1.  When the accumulation of an option pulls a line whose trimmed
    text begins with rpc, message or service: (a) the option accumulated
    so far is added to the Rpc when its body is not blank; (b, d) no
    further line is taken for the option, a fresh recognizer is asked
    whether it accepts the pulled line and, if it does, visits it with
    the same namespace on the same source; the Rpc that this visit
    returns is dropped, only the position at which it leaves the source
    is kept; (c) the Rpc is returned when the line is not accepted or
    the visit returns, but a panic of the visit is the outcome of the
    call.  It happens on a pulled declaration whose parameter type
    begins with the letters of [stream]: the call that was accumulating
    the option of the declaration before it panics with it. *)
Theorem accumulate_delegates :
  (forall ns out name body,
      Options (flushOption ns out name body) =
      (if 0 <? Z.of_nat (String.length (strings.TrimSpace body))
       then Options out ++ [NewRpcOption (ns ++ "." ++ Name out) name EmptyString body]
       else Options out)%list)
  /\ (forall fuel ns out name body count (l : Line) (sc : Scanner),
         startsDeclaration l = true ->
         accumulate (Visit fuel NewRpcVisitor) ns out name body count (l :: sc) =
         if CanVisit NewRpcVisitor l
         then match Visit fuel NewRpcVisitor sc l ns with
              | Returned (_, sc') => Returned (flushOption ns out name body, sc')
              | Panicked msg => Panicked msg
              | OutOfFuel => OutOfFuel
              end
         else Returned (flushOption ns out name body, sc))
  /\ startsDeclaration
       (line "rpc Watch(streaming.v1.WatchRequest) returns (streaming.v1.Event);"
             Semicolon) = true
  /\ CanVisit NewRpcVisitor
              (line "rpc Watch(streaming.v1.WatchRequest) returns (streaming.v1.Event);"
                    Semicolon) = true
  /\ (forall fuel sc ns,
         Visit (S (S fuel)) NewRpcVisitor
               (line "option (google.api.http) = {" OpenBrace
                :: line ("get: " ++ quote ++ "/v1/x" ++ quote) NoToken
                :: line "rpc Watch(streaming.v1.WatchRequest) returns (streaming.v1.Event);"
                        Semicolon
                :: sc)
               (line "rpc Get(A) returns (B) {" OpenBrace) ns =
         Panicked "slice bounds out of range").
Proof.
  split; [|split; [|repeat split]].
  - intros ns out name body. unfold flushOption. now destruct (0 <? _).
  - exact accumulate_starts.
Qed.

Lemma accumulate_delegates_witness :
  accumulate (Visit 1 NewRpcVisitor) "pkg.Svc" (NewRpc "pkg.Svc" "First" None)
             "google.api.http" "{" 1
             [line "rpc Second(A) returns (B);" Semicolon; line "}" CloseBrace] =
  Returned (MkRpc "pkg.Svc" "First" None [] []
                  [NewRpcOption "pkg.Svc.First" "google.api.http" EmptyString "{"],
            [line "}" CloseBrace]).
Proof.
  exact (proj1 (proj2 accumulate_delegates) 1%nat "pkg.Svc" (NewRpc "pkg.Svc" "First" None)
           "google.api.http" "{" 1
           (line "rpc Second(A) returns (B);" Semicolon)
           [line "}" CloseBrace] eq_refl).
Defined.



(** C3.  The declaration [rpc Name(A, stream B) returns (C, D)]: the
    argument list is cut at the commas, and a segment is tested for the
    prefix [stream] before it is trimmed.  The second segment still
    begins with the blank that follows the comma, so it is not taken for
    a streaming parameter: the Rpc has the input parameters [A] and
    [stream B], neither of them streaming, and the output parameters [C]
    and [D]. *)
Theorem comma_then_stream :
  (forall comment tok ns,
      declaration NewRpcVisitor
                  (NewLine "rpc Name(A, stream B) returns (C, D)" comment tok) ns =
      Returned (MkRpc ns "Name" comment
                      [NewParameter false "A"; NewParameter false "stream B"]
                      [NewParameter false "C"; NewParameter false "D"] []))
  /\ (forall fuel sc comment ns,
         Visit (S fuel) NewRpcVisitor sc
               (NewLine "rpc Name(A, stream B) returns (C, D)" comment Semicolon) ns =
         Returned (MkRpc ns "Name" comment
                         [NewParameter false "A"; NewParameter false "stream B"]
                         [NewParameter false "C"; NewParameter false "D"] [], sc))
  /\ strings.Split "A, stream B" Comma = ["A"; " stream B"]
  /\ parseArg " stream B" = Returned (NewParameter false "stream B")
  /\ parseArg "stream B" = Returned (NewParameter true "B").
Proof. repeat split. Qed.

(** C4.  On an option line with more than one [=] the first body is the
    text between the first [=] and the second one, not the text after
    the first one: the value of the option below is cut inside its path
    template, and the balance of the braces starts at two although the
    braces of the text after the first [=] are balanced. *)
Theorem option_with_two_equals :
  let text := "option (google.api.http) = { get: " ++ quote ++ "/v1/{name=shelves/*}"
                 ++ quote ++ " };" in
  optionStart (line text Semicolon) =
    Returned {| optionName := "google.api.http";
                optionBody := "{ get: " ++ quote ++ "/v1/{name";
                braceCount := 2 |}
  /\ sliceFrom text (strings.Index text "=" + 1) =
       Returned (" { get: " ++ quote ++ "/v1/{name=shelves/*}" ++ quote ++ " };")
  /\ braces (strings.TrimSpace (" { get: " ++ quote ++ "/v1/{name=shelves/*}"
                                          ++ quote ++ " };")) = 0.
Proof. repeat split. Qed.

(** C5.  [Visit] panics on lines that [CanVisit] accepts: on a declared
    parameter that begins with [stream] and holds no space, where the
    segment is sliced from the index [-1]; and, in the block, on an
    option line that has no closing parenthesis, where the name is sliced
    up to the index [-1]. *)
Theorem Visit_panics :
  CanVisit NewRpcVisitor (line "rpc Name(streamA) returns (B);" Semicolon) = true
  /\ (forall fuel sc ns,
         Visit (S fuel) NewRpcVisitor sc
               (line "rpc Name(streamA) returns (B);" Semicolon) ns =
         Panicked "slice bounds out of range")
  /\ CanVisit NewRpcVisitor (line "rpc Name(A) returns (B) {" OpenBrace) = true
  /\ (forall fuel sc ns,
         Visit (S fuel) NewRpcVisitor
               (line "option deprecated = true;" Semicolon :: sc)
               (line "rpc Name(A) returns (B) {" OpenBrace) ns =
         Panicked "slice bounds out of range").
Proof. repeat split. Qed.

(** C6.  A declaration without a block whose parameter type is a
    qualified name that begins with the letters of [stream]: the line is
    accepted, and [Visit] panics instead of returning the Rpc, because
    the type is taken for a streaming parameter and sliced from the
    index of a space that it does not contain.  The declaration
    [rpc Name(A) returns (B);] itself gives the Rpc with the input [A]
    and the output [B]. *)
Theorem blockless_stream_named_type :
  CanVisit NewRpcVisitor
           (line "rpc Watch(streaming.v1.WatchRequest) returns (streaming.v1.Event);"
                 Semicolon) = true
  /\ typeName "streaming.v1.WatchRequest"
  /\ (forall fuel sc ns,
         Visit (S fuel) NewRpcVisitor sc
               (line "rpc Watch(streaming.v1.WatchRequest) returns (streaming.v1.Event);"
                     Semicolon) ns =
         Panicked "slice bounds out of range")
  /\ (forall fuel sc comment ns,
         Visit (S fuel) NewRpcVisitor sc
               (NewLine "rpc Name(A) returns (B);" comment Semicolon) ns =
         Returned (MkRpc ns "Name" comment [NewParameter false "A"]
                         [NewParameter false "B"] [], sc)).
Proof. repeat split. discriminate. Qed.

(** C7.  The declaration [rpc Name(stream A) returns (B) {], for any
    name, any type names [A] and [B] and any blanks between [stream] and
    [A].  When one of these blanks is a space and [B] does not begin
    with the letters of [stream], the Rpc has one input parameter, which
    is streaming and of type [A]: the declaration step gives it, a block
    that is closed at once returns it, and whatever lines the block
    holds an Rpc that [Visit] returns has this input parameter and no
    other.  Otherwise [Visit] panics and there is no Rpc: so it is with
    the output type [streaming.v1.Event], and with a tab between
    [stream] and the type. *)
Theorem stream_parameter :
  (forall name sep A B,
      all word name = true -> name <> EmptyString ->
      blank sep -> sep <> EmptyString -> typeName A -> typeName B ->
      if lacks " " sep || strings.HasPrefix B "stream"
      then forall fuel sc comment tok ns,
          Visit (S fuel) NewRpcVisitor sc
                (NewLine (streamDeclaration name sep A B) comment tok) ns =
          Panicked "slice bounds out of range"
      else (forall comment tok ns,
               declaration NewRpcVisitor
                           (NewLine (streamDeclaration name sep A B) comment tok) ns =
               Returned (MkRpc ns name comment [NewParameter true A]
                               [NewParameter false B] []))
           /\ (forall fuel sc comment ns,
                  Visit (S fuel) NewRpcVisitor (line "}" CloseBrace :: sc)
                        (NewLine (streamDeclaration name sep A B) comment OpenBrace) ns =
                  Returned (MkRpc ns name comment [NewParameter true A]
                                  [NewParameter false B] [], sc))
           /\ (forall fuel sc comment tok ns r sc',
                  Visit fuel NewRpcVisitor sc
                        (NewLine (streamDeclaration name sep A B) comment tok) ns =
                  Returned (r, sc') ->
                  InputParameters r = [NewParameter true A]))
  /\ streamDeclaration "Name" " " "A" "B" = "rpc Name(stream A) returns (B) {"
  /\ streamDeclaration "Watch" " " "WatchRequest" "streaming.v1.Event" =
     "rpc Watch(stream WatchRequest) returns (streaming.v1.Event) {"
  /\ (forall fuel sc ns,
         Visit (S fuel) NewRpcVisitor sc
               (line "rpc Watch(stream WatchRequest) returns (streaming.v1.Event) {"
                     OpenBrace) ns =
         Panicked "slice bounds out of range")
  /\ (forall fuel sc ns,
         Visit (S fuel) NewRpcVisitor sc
               (line (streamDeclaration "Watch" tab "WatchRequest" "Event") OpenBrace) ns =
         Panicked "slice bounds out of range").
Proof.
  split; [|repeat split].
  intros name sep A B Hname Hn Hs Ns HA HB.
  pose proof (fun comment tok ns =>
                declaration_stream name sep A B comment tok ns Hname Hn Hs Ns HA HB) as D.
  destruct (lacks " " sep || strings.HasPrefix B "stream").
  - intros fuel sc comment tok ns. now rewrite Visit_S, D.
  - split; [exact D|]. split.
    + intros fuel sc comment ns. rewrite Visit_S, D. cbn [bind Token token_eqb].
      now rewrite scanBlock_cons.
    + intros fuel sc comment tok ns r sc' H.
      apply Visit_extends in H as (out & Hout & (_ & _ & _ & Hin & _)).
      rewrite D in Hout. rewrite Hin. now injection Hout as <-.
Qed.

Lemma stream_parameter_witness :
  (forall comment tok ns,
      declaration NewRpcVisitor
                  (NewLine "rpc Name(stream A) returns (B) {" comment tok) ns =
      Returned (MkRpc ns "Name" comment [NewParameter true "A"]
                      [NewParameter false "B"] []))
  /\ (forall fuel sc comment ns,
         Visit (S fuel) NewRpcVisitor (line "}" CloseBrace :: sc)
               (NewLine "rpc Name(stream A) returns (B) {" comment OpenBrace) ns =
         Returned (MkRpc ns "Name" comment [NewParameter true "A"]
                         [NewParameter false "B"] [], sc))
  /\ (forall fuel sc comment tok ns r sc',
         Visit fuel NewRpcVisitor sc
               (NewLine "rpc Name(stream A) returns (B) {" comment tok) ns =
         Returned (r, sc') ->
         InputParameters r = [NewParameter true "A"]).
Proof.
  refine (proj1 stream_parameter "Name" " " "A" "B" eq_refl _ eq_refl _ _ _);
    try discriminate; split; (reflexivity || discriminate).
Defined.

(** C8.  Every option of the Rpc that [Visit] returns has the scope path
    made of the namespace, a period and the name of the Rpc, whichever
    way the option was completed and whatever the namespace is. *)
Theorem scope_path fuel rv sc l ns r sc' :
  Visit fuel rv sc l ns = Returned (r, sc') ->
  Namespace r = ns
  /\ Forall (fun o => ScopePath o = ns ++ "." ++ Name r) (Options r).
Proof.
  intros H. apply Visit_extends in H as (out & Hout & (N & M & _ & _ & _ & added & O & F)).
  apply declaration_fresh in Hout as (Nout & _ & Oout & _).
  split; [congruence|].
  rewrite O, Oout, M. exact F.
Qed.

Lemma scope_path_witness :
  Visit 1 NewRpcVisitor httpOption
        (line "rpc Create(Request) returns (Response) {" OpenBrace) EmptyString =
    Returned (MkRpc EmptyString "Create" None [NewParameter false "Request"]
                    [NewParameter false "Response"]
                    [NewRpcOption ".Create" "google.api.http" EmptyString httpBody],
              [])
  /\ Namespace (MkRpc EmptyString "Create" None [NewParameter false "Request"]
                      [NewParameter false "Response"]
                      [NewRpcOption ".Create" "google.api.http" EmptyString httpBody]) =
     EmptyString
  /\ Forall (fun o => ScopePath o = EmptyString ++ "." ++ "Create")
            [NewRpcOption ".Create" "google.api.http" EmptyString httpBody].
Proof.
  split; [reflexivity|].
  exact (scope_path 1 NewRpcVisitor httpOption
           (line "rpc Create(Request) returns (Response) {" OpenBrace) EmptyString
           (MkRpc EmptyString "Create" None [NewParameter false "Request"]
                  [NewParameter false "Response"]
                  [NewRpcOption ".Create" "google.api.http" EmptyString httpBody])
           [] eq_refl).
Defined.

(** C9.  [Visit] terminates on every source: a recursion budget of one
    more than the number of lines left is enough for it to return or to
    panic, and a larger one gives the same outcome; the source that a
    call leaves is what remains of the source it was given after the
    lines it pulled, and the delegated visit starts after the line that
    the inner loop pulled.  The outer loop goes on over the lines that
    neither close the block nor start an option, and the inner loop over
    the lines that it appends without completing the option.  When the
    source runs out in a block the Rpc is returned: with its options so far when the outer loop was passing
    over lines, and with the option under accumulation added (if its
    body is not blank) when the inner loop was appending lines. *)
Theorem Visit_terminates :
  (forall fuel rv sc l ns,
      (List.length sc < fuel)%nat ->
      Visit fuel rv sc l ns <> OutOfFuel
      /\ Visit fuel rv sc l ns = Visit (S (List.length sc)) rv sc l ns)
  /\ (forall fuel rv sc l ns r sc',
         Visit fuel rv sc l ns = Returned (r, sc') ->
         exists pulled, sc = (pulled ++ sc')%list)
  /\ (forall fuel ns out name body count l sc r sc',
         accumulate (Visit fuel NewRpcVisitor) ns out name body count (l :: sc) =
         Returned (r, sc') ->
         exists pulled, sc = (pulled ++ sc')%list)
  /\ (forall d ns out ls rest,
         forallb idle ls = true ->
         scanBlock d ns out (ls ++ rest)%list = scanBlock d ns out rest)
  /\ (forall d ns out name body count ls rest,
         accumulating count ls = true ->
         accumulate d ns out name body count (ls ++ rest)%list =
         accumulate d ns out name (body ++ text ls) (balance count ls) rest)
  /\ (forall d ns out ls,
         forallb idle ls = true ->
         scanBlock d ns out ls = Returned (out, []))
  /\ (forall d ns out name body count ls,
         accumulating count ls = true ->
         accumulate d ns out name body count ls =
         Returned (flushOption ns out name (body ++ text ls), []))
  /\ (forall fuel rv l ns out ls opt o ls',
         declaration rv l ns = Returned out ->
         token_eqb (Token l) Semicolon = false ->
         forallb idle ls = true ->
         token_eqb (Token opt) CloseBrace = false ->
         strings.HasPrefix (Syntax opt) "option" = true ->
         optionStart opt = Returned o ->
         accumulating (braceCount o) ls' = true ->
         Visit (S fuel) rv (ls ++ opt :: ls')%list l ns =
         Returned (flushOption ns out (optionName o) (optionBody o ++ text ls'), [])).
Proof.
  split; [|split; [|split; [|split; [|split; [|split; [|split]]]]]].
  - intros fuel rv sc l ns H. split; [now apply Visit_fuel | now apply Visit_enough].
  - intros fuel. apply Visit_suffix.
  - apply accumulate_advances.
  - intros. now apply scanBlock_idle.
  - intros. now apply accumulate_run.
  - intros d ns out ls H. rewrite <- (app_nil_r ls).
    now rewrite scanBlock_idle, scanBlock_nil.
  - intros. now apply accumulate_exhausted.
  - intros. now apply Visit_exhausted with (out := out).
Qed.

Lemma Visit_terminates_witness :
  Visit 4 NewRpcVisitor
        [line "// POST only" NoToken; line "option (google.api.http) = {" OpenBrace;
         line ("post: " ++ quote ++ "/v1/x" ++ quote) NoToken]
        (line "rpc Create(Request) returns (Response) {" OpenBrace) "pkg.Svc" <> OutOfFuel
  /\ Visit 1 NewRpcVisitor
           [line "// POST only" NoToken; line "option (google.api.http) = {" OpenBrace;
            line ("post: " ++ quote ++ "/v1/x" ++ quote) NoToken]
           (line "rpc Create(Request) returns (Response) {" OpenBrace) "pkg.Svc" =
     Returned (MkRpc "pkg.Svc" "Create" None [NewParameter false "Request"]
                     [NewParameter false "Response"]
                     [NewRpcOption "pkg.Svc.Create" "google.api.http" EmptyString
                                   ("{" ++ "post: " ++ quote ++ "/v1/x" ++ quote)],
               []).
Proof.
  split.
  - refine (proj1 (proj1 Visit_terminates 4%nat NewRpcVisitor _ _ _ _)).
    cbn [List.length]. lia.
  - exact (proj2 (proj2 (proj2 (proj2 (proj2 (proj2 (proj2 Visit_terminates))))))
             O NewRpcVisitor
             (line "rpc Create(Request) returns (Response) {" OpenBrace) "pkg.Svc"
             (MkRpc "pkg.Svc" "Create" None [NewParameter false "Request"]
                    [NewParameter false "Response"] [])
             [line "// POST only" NoToken]
             (line "option (google.api.http) = {" OpenBrace)
             {| optionName := "google.api.http"; optionBody := "{"; braceCount := 1 |}
             [line ("post: " ++ quote ++ "/v1/x" ++ quote) NoToken]
             eq_refl eq_refl eq_refl eq_refl eq_refl eq_refl eq_refl).
Defined.

(** C10.  [CanVisit] accepts a line exactly when its text holds,
    anywhere, [rpc], blanks, a name, a parenthesized input clause,
    blanks, [returns] and a parenthesized output clause, where neither
    clause is empty.  A declaration with an empty argument list is not
    accepted; a comment that holds a declaration is. *)
Theorem CanVisit_exactly :
  (forall l, CanVisit NewRpcVisitor l = true <-> declares (Syntax l))
  /\ CanVisit NewRpcVisitor (line "rpc Name() returns (B);" Semicolon) = false
  /\ CanVisit NewRpcVisitor (line "// see rpc Name(A) returns (B);" NoToken) = true.
Proof.
  split; [exact CanVisit_declares | split; reflexivity].
Qed.

(* ================================================================== *)
(** ** Further properties *)

(** X1.  A declaration without a block, [rpc Name(A) returns (B)] with
    any blanks that the pattern allows and any text after it, whose two
    parameters are type names that do not begin with [stream]: [Visit]
    returns at once, without pulling a line, the Rpc with the one input
    and the one output parameter, neither streaming, and no option. *)
Theorem Visit_blockless fuel sc ns comment sp1 name sp2 sp3 A sp4 sp5 sp6 B trailer :
  blank sp1 -> sp1 <> EmptyString ->
  all word name = true -> name <> EmptyString ->
  blank sp2 -> blank sp3 -> typeName A ->
  blank sp4 -> sp4 <> EmptyString -> blank sp5 -> blank sp6 -> typeName B ->
  strings.HasPrefix A "stream" = false -> strings.HasPrefix B "stream" = false ->
  Visit (S fuel) NewRpcVisitor sc
        (NewLine ("rpc" ++ sp1 ++ name ++ sp2 ++ "(" ++ sp3 ++ A ++ ")" ++ sp4
                        ++ "returns" ++ sp5 ++ "(" ++ sp6 ++ B ++ ")" ++ trailer)
                 comment Semicolon) ns =
  Returned (MkRpc ns name comment [NewParameter false A] [NewParameter false B] [], sc).
Proof.
  intros H1 N1 Hname Hn H2 H3 HA H4 N4 H5 H6 HB SA SB.
  destruct (typeName_clause A HA) as (A1 & A2 & A3).
  destruct (typeName_clause B HB) as (B1 & B2 & B3).
  destruct (FindStringSubmatch_declaration sp1 name sp2 sp3 A sp4 sp5 sp6 B trailer)
    as (whole & rest & E); auto.
  rewrite Visit_S. unfold declaration, ParseInArgs, ParseReturnArgs.
  cbn [Syntax Comment Token RpcLineMatcher NewRpcVisitor]. rewrite E.
  cbn [at_index nth_error bind].
  rewrite (parseArgs_typeName _ A _ HA SA). cbn [bind].
  rewrite (parseArgs_typeName _ B _ HB SB). reflexivity.
Qed.

Lemma Visit_blockless_witness :
  Visit 1 NewRpcVisitor [line "}" CloseBrace]
        (line "rpc  GetBook (library.v1.GetBookRequest) returns (library.v1.Book);"
              Semicolon) "library.v1.Library" =
  Returned (MkRpc "library.v1.Library" "GetBook" None
                  [NewParameter false "library.v1.GetBookRequest"]
                  [NewParameter false "library.v1.Book"] [],
            [line "}" CloseBrace]).
Proof.
  apply (Visit_blockless 0 [line "}" CloseBrace] "library.v1.Library" None
           "  " "GetBook" " " EmptyString "library.v1.GetBookRequest"
           " " " " EmptyString "library.v1.Book" ";");
    try reflexivity; try discriminate; split; (reflexivity || discriminate).
Defined.

(** X2.  On an option line that holds one [=], the first body is the
    trimmed text after it, and the balance is that of the braces of this
    text. *)
Theorem optionStart_one_equals (l : Line) (a b : string) o :
  Syntax l = a ++ "=" ++ b -> lacks "=" a = true -> lacks "=" b = true ->
  optionStart l = Returned o ->
  optionBody o = strings.TrimSpace b /\ braceCount o = braces (strings.TrimSpace b).
Proof.
  intros E Ha Hb. unfold optionStart. rewrite E.
  intros H. apply bind_Returned in H as (name & _ & H).
  unfold strings.Contains, strings.Index in H.
  change (a ++ "=" ++ b) with (a ++ String "=" b) in H.
  rewrite (indexFrom_once "=" a b Ha) in H.
  replace (0 <=? Z.of_nat _) with true in H by (symmetry; apply Z.leb_le; lia).
  rewrite (Split_once "=" a b Ha Hb) in H.
  cbn in H. injection H as <-. now split.
Qed.

Lemma optionStart_one_equals_witness :
  optionBody {| optionName := "google.api.http"; optionBody := "{"; braceCount := 1 |} =
    strings.TrimSpace " {"
  /\ braceCount {| optionName := "google.api.http"; optionBody := "{"; braceCount := 1 |} =
     braces (strings.TrimSpace " {").
Proof.
  exact (optionStart_one_equals (line "option (google.api.http) = {" OpenBrace)
           "option (google.api.http) " " {"
           {| optionName := "google.api.http"; optionBody := "{"; braceCount := 1 |}
           eq_refl eq_refl eq_refl eq_refl).
Defined.

(** X3.  On a line that [CanVisit] accepts, [FindStringSubmatch] gives
    five texts: the declaration found, the name, the two argument lists
    and the trailer.  The name is a non-empty word; each argument list
    is not empty and holds no closing parenthesis, and may begin or end
    with blanks; the trailer holds no line feed.  The declaration found
    is [rpc], blanks, the name, any blanks, an opening parenthesis, any
    blanks, the first list, any blanks, a closing parenthesis, blanks,
    [returns], any blanks, an opening parenthesis, any blanks, the second
    list, any blanks, a closing parenthesis and the trailer; the line is
    some text, this declaration, and some text. *)
Theorem accepted_submatches (l : Line) :
  CanVisit NewRpcVisitor l = true ->
  exists whole name ins outs trailer,
    FindStringSubmatch (RpcLineMatcher NewRpcVisitor) (Syntax l) =
      [whole; name; ins; outs; trailer]
    /\ captured (Syntax l) whole name ins outs trailer.
Proof. apply FindStringSubmatch_captured. Qed.

Lemma accepted_submatches_witness :
  captured "  // rpc  Get ( A , B ) returns( stream C )  { "
           "rpc  Get ( A , B ) returns( stream C )  { " "Get" "A , B " "stream C " "  { ".
Proof.
  destruct (accepted_submatches
              (line "  // rpc  Get ( A , B ) returns( stream C )  { " OpenBrace) eq_refl)
    as (whole & name & ins & outs & trailer & E & H).
  vm_compute in E. injection E as <- <- <- <- <-. exact H.
Defined.

(** X4.  When [ParseInArgs] returns, the Rpc has gained one input
    parameter for each segment of the third submatch cut at the commas,
    in their order, after the parameters it had: one more than there are
    commas; its name, namespace, comment, output parameters and options
    are untouched.  [ParseReturnArgs] does the same with the fourth
    submatch and the output parameters. *)
Theorem parameters_appended :
  (forall values rpc rpc',
      ParseInArgs values rpc = Returned rpc' ->
      exists v ps,
        nth_error values 2 = Some v
        /\ Forall2 (fun i p => parseArg i = Returned p) (strings.Split v Comma) ps
        /\ Z.of_nat (List.length ps) = 1 + strings.Count v Comma
        /\ rpc' = MkRpc (Namespace rpc) (Name rpc) (RpcComment rpc)
                        (InputParameters rpc ++ ps) (ReturnParameters rpc) (Options rpc))
  /\ (forall values rpc rpc',
         ParseReturnArgs values rpc = Returned rpc' ->
         exists v ps,
           nth_error values 3 = Some v
           /\ Forall2 (fun i p => parseArg i = Returned p) (strings.Split v Comma) ps
           /\ Z.of_nat (List.length ps) = 1 + strings.Count v Comma
           /\ rpc' = MkRpc (Namespace rpc) (Name rpc) (RpcComment rpc)
                           (InputParameters rpc) (ReturnParameters rpc ++ ps) (Options rpc)).
Proof.
  split; [exact ParseInArgs_appends | exact ParseReturnArgs_appends].
Qed.

Lemma parameters_appended_witness :
  exists v ps,
    nth_error ["rpc F(A,,stream B) returns (C)"; "F"; "A,,stream B"; "C"; ""] 2 = Some v
    /\ Forall2 (fun i p => parseArg i = Returned p) (strings.Split v Comma) ps
    /\ Z.of_nat (List.length ps) = 1 + strings.Count v Comma
    /\ MkRpc "pkg" "F" None
             [NewParameter false "Z"; NewParameter false "A"; NewParameter false EmptyString;
              NewParameter true "B"] [] [] =
       MkRpc "pkg" "F" None
             ([NewParameter false "Z"] ++ ps) [] [].
Proof.
  exact (proj1 parameters_appended
           ["rpc F(A,,stream B) returns (C)"; "F"; "A,,stream B"; "C"; ""]
           (MkRpc "pkg" "F" None [NewParameter false "Z"] [] [])
           (MkRpc "pkg" "F" None
                  [NewParameter false "Z"; NewParameter false "A";
                   NewParameter false EmptyString; NewParameter true "B"] [] [])
           eq_refl).
Defined.

(** X5.  The declaration step of [Visit] fails in two ways only.  On a
    line that the matcher rejects it panics with an index out of range,
    whatever the matcher is.  On a line that [CanVisit] accepts it
    panics with slice bounds out of range exactly when a segment of one
    of the two argument lists begins with [stream] and holds no space;
    otherwise it returns the Rpc of the given namespace and comment,
    named by the second submatch, with the parameters of the segments
    and no option. *)
Theorem declaration_outcome :
  (forall rv fuel sc l ns,
      CanVisit rv l = false ->
      Visit (S fuel) rv sc l ns = Panicked "index out of range")
  /\ (forall fuel sc l ns,
         CanVisit NewRpcVisitor l = true ->
         exists whole name ins outs trailer,
           FindStringSubmatch RpcLinePattern (Syntax l) = [whole; name; ins; outs; trailer]
           /\ if forallb sliceable (strings.Split ins Comma ++ strings.Split outs Comma)
              then exists inputs outputs,
                  declaration NewRpcVisitor l ns =
                  Returned (MkRpc ns name (Comment l) inputs outputs [])
                  /\ Forall2 (fun i p => parseArg i = Returned p)
                             (strings.Split ins Comma) inputs
                  /\ Forall2 (fun i p => parseArg i = Returned p)
                             (strings.Split outs Comma) outputs
              else Visit (S fuel) NewRpcVisitor sc l ns =
                   Panicked "slice bounds out of range").
Proof.
  split.
  - intros rv fuel sc l ns H. now rewrite Visit_S, declaration_rejected.
  - intros fuel sc l ns H.
    destruct (declaration_accepted l ns H) as (whole & name & ins & outs & trailer & E & _ & Ho).
    exists whole, name, ins, outs, trailer. split; [exact E|].
    destruct (forallb sliceable _); [exact Ho|].
    now rewrite Visit_S, Ho.
Qed.

Lemma declaration_outcome_witness :
  Visit 1 NewRpcVisitor [] (line "option (a) = 1;" Semicolon) "pkg" =
    Panicked "index out of range"
  /\ Visit 1 NewRpcVisitor [] (line "rpc Put(A, B,streamC) returns (D);" Semicolon) "pkg" =
     Panicked "slice bounds out of range".
Proof.
  split.
  - exact (proj1 declaration_outcome NewRpcVisitor O []
             (line "option (a) = 1;" Semicolon) "pkg" eq_refl).
  - destruct (proj2 declaration_outcome O []
                (line "rpc Put(A, B,streamC) returns (D);" Semicolon) "pkg" eq_refl)
      as (whole & name & ins & outs & trailer & E & H).
    vm_compute in E. injection E as <- <- <- <- <-. exact H.
Defined.

(** X6.  The keyword [stream] is recognised as a prefix of the segment
    only: when a segment begins with [stream] and holds a space, the
    parameter is streaming and its type is the trimmed text after the
    first space, whatever stands between [stream] and that space. *)
Theorem stream_by_prefix (a b : string) :
  strings.HasPrefix (a ++ " " ++ b) "stream" = true ->
  lacks " " a = true ->
  parseArg (a ++ " " ++ b) = Returned (NewParameter true (strings.TrimSpace b)).
Proof.
  intros Hp Ha. unfold parseArg. rewrite Hp, sliceFrom_Index.
  unfold strings.Index, Space.
  change (a ++ " " ++ b) with (a ++ String " " b).
  rewrite (indexFrom_once " " a b Ha). cbn [Nat.add].
  replace (0 <=? Z.of_nat (String.length a)) with true by (symmetry; apply Z.leb_le; lia).
  cbn [bind]. rewrite Nat2Z.id, length_append.
  replace (Z.to_nat _) with (String.length (String " " b)) by lia.
  now rewrite substring_from, TrimSpace_space.
Qed.

Lemma stream_by_prefix_witness :
  parseArg "streamOf Event" = Returned (NewParameter true "Event").
Proof. exact (stream_by_prefix "streamOf" "Event" eq_refl eq_refl). Defined.

(** X7.  The name of an option is the text between the first opening
    parenthesis of the option line and its first closing one.  The slice
    that takes it panics exactly when the first closing parenthesis does
    not come after the first opening one: so on every option line
    without a closing parenthesis, which makes [Visit] panic when it
    is met in a block; on a line with both in this order the name is the
    text between them. *)
Theorem option_name :
  (forall l,
      if strings.Index (Syntax l) "(" <? strings.Index (Syntax l) ")"
      then exists o,
          optionStart l = Returned o
          /\ optionName o =
             substring (Z.to_nat (strings.Index (Syntax l) "(" + 1))
                       (Z.to_nat (strings.Index (Syntax l) ")"
                                  - (strings.Index (Syntax l) "(" + 1)))
                       (Syntax l)
      else optionStart l = Panicked "slice bounds out of range")
  /\ (forall l, lacks ")" (Syntax l) = true ->
                optionStart l = Panicked "slice bounds out of range")
  /\ (forall fuel rv l ns out ls opt sc,
         declaration rv l ns = Returned out ->
         token_eqb (Token l) Semicolon = false ->
         forallb idle ls = true ->
         token_eqb (Token opt) CloseBrace = false ->
         strings.HasPrefix (Syntax opt) "option" = true ->
         lacks ")" (Syntax opt) = true ->
         Visit (S fuel) rv (ls ++ opt :: sc)%list l ns =
         Panicked "slice bounds out of range")
  /\ (forall l a n b,
         Syntax l = a ++ "(" ++ n ++ ")" ++ b ->
         lacks "(" a = true -> lacks ")" a = true -> lacks ")" n = true ->
         exists o, optionStart l = Returned o /\ optionName o = n).
Proof.
  assert (none : forall l, lacks ")" (Syntax l) = true ->
                           optionStart l = Panicked "slice bounds out of range").
  { intros l H. pose proof (optionStart_name l) as Ho.
    pose proof (Index_bounds (Syntax l) "(") as [Hlo _].
    unfold strings.Index in *. rewrite (indexFrom_lacks ")" _ H) in *.
    destruct (Z.ltb_spec (strings.indexFrom 0 "(" (Syntax l)) (-1)); [lia | exact Ho]. }
  split; [exact optionStart_name|]. split; [exact none|]. split.
  - intros fuel rv l ns out ls opt sc Hd Hl Hls Hc Ho Hp.
    rewrite (Visit_option_line fuel rv l ns out ls opt sc Hd Hl Hls Hc Ho).
    now rewrite (none opt Hp).
  - intros l a n b E Ha1 Ha2 Hn.
    pose proof (optionStart_name l) as Ho. rewrite E in Ho.
    unfold strings.Index in Ho.
    change (a ++ "(" ++ n ++ ")" ++ b) with (a ++ String "(" (n ++ ")" ++ b)) in Ho.
    rewrite (indexFrom_once "(" a _ Ha1) in Ho.
    replace (a ++ String "(" (n ++ ")" ++ b))
      with ((a ++ "(" ++ n) ++ String ")" b) in Ho
      by (rewrite !append_assoc; reflexivity).
    rewrite (indexFrom_once ")" (a ++ "(" ++ n) b) in Ho
      by (rewrite !lacks_append, Ha2, Hn; reflexivity).
    rewrite !length_append in Ho. cbn [Nat.add String.length] in Ho.
    destruct (Z.ltb_spec (Z.of_nat (String.length a))
                         (Z.of_nat (String.length a + S (String.length n)))); [|lia].
    destruct Ho as (o & Eo & En). exists o. split; [exact Eo|].
    rewrite En.
    replace (Z.to_nat (Z.of_nat (String.length a) + 1))
      with (String.length (a ++ "(")) by (rewrite length_append; cbn; lia).
    replace (Z.to_nat _) with (String.length (a ++ "(") + String.length n
                               - String.length (a ++ "("))%nat
      by (rewrite length_append; cbn; lia).
    apply substring_span with (p := a ++ "(") (q := ")" ++ b); auto.
    now rewrite !append_assoc.
Qed.

Lemma option_name_witness :
  optionStart (line "option deprecated = true;" Semicolon) =
    Panicked "slice bounds out of range"
  /\ Visit 1 NewRpcVisitor
           [line "// note" NoToken; line "option deprecated = true;" Semicolon;
            line "}" CloseBrace]
           (line "rpc Get(A) returns (B) {" OpenBrace) "pkg" =
     Panicked "slice bounds out of range"
  /\ exists o,
      optionStart (line "option (google.api.http) = { get: (x) };" Semicolon) = Returned o
      /\ optionName o = "google.api.http".
Proof.
  split; [|split].
  - exact (proj1 (proj2 option_name) (line "option deprecated = true;" Semicolon) eq_refl).
  - exact (proj1 (proj2 (proj2 option_name)) O NewRpcVisitor
             (line "rpc Get(A) returns (B) {" OpenBrace) "pkg"
             (MkRpc "pkg" "Get" None [NewParameter false "A"] [NewParameter false "B"] [])
             [line "// note" NoToken] (line "option deprecated = true;" Semicolon)
             [line "}" CloseBrace] eq_refl eq_refl eq_refl eq_refl eq_refl eq_refl).
  - exact (proj2 (proj2 (proj2 option_name))
             (line "option (google.api.http) = { get: (x) };" Semicolon)
             "option " "google.api.http" " = { get: (x) };" eq_refl eq_refl eq_refl eq_refl).
Defined.

(** X8.  Every option of an Rpc that [Visit] returns has an empty index
    and a body that is not blank, and comes from an option line of the
    source, that is a line that has not the token that closes a block
    and whose text begins with [option]: its name is the name that this
    line gives, and its body begins with the first body of this line. *)
Theorem options_recorded fuel rv sc l ns r sc' :
  Visit fuel rv sc l ns = Returned (r, sc') ->
  Forall (recorded sc) (Options r).
Proof.
  destruct fuel as [|fuel]; [discriminate|]. rewrite Visit_S.
  intros H. apply bind_Returned in H as (out & Hd & H).
  apply declaration_fresh in Hd as (_ & _ & Oout & _).
  destruct (token_eqb _ _).
  - injection H as <- _. rewrite Oout. constructor.
  - apply (proj1 (scan_recorded _ ns sc)) in H as (added & E & F).
    rewrite E, Oout. exact F.
Qed.

Lemma options_recorded_witness :
  Forall (recorded httpOption)
         [NewRpcOption "pkg.Create" "google.api.http" EmptyString httpBody].
Proof.
  exact (options_recorded 1 NewRpcVisitor httpOption
           (line "rpc Create(Request) returns (Response) {" OpenBrace) "pkg"
           (MkRpc "pkg" "Create" None [NewParameter false "Request"]
                  [NewParameter false "Response"]
                  [NewRpcOption "pkg.Create" "google.api.http" EmptyString httpBody])
           [] eq_refl).
Defined.

(** X9.  An Rpc that [Visit] returns has the namespace it was given and
    the comment of the line; [FindStringSubmatch] gives five texts on
    the line, of which the second is the name of the Rpc, a non-empty
    word, and the third and the fourth are the two argument lists; the
    input and the output parameters of the Rpc are those of the segments
    of these two lists, in their order, at least one of each.  When the
    line has the statement-end token, the source is left as it was and
    the Rpc has no option. *)
Theorem Visit_returns fuel sc (l : Line) ns r sc' :
  Visit fuel NewRpcVisitor sc l ns = Returned (r, sc') ->
  exists whole ins outs trailer,
    FindStringSubmatch RpcLinePattern (Syntax l) = [whole; Name r; ins; outs; trailer]
    /\ captured (Syntax l) whole (Name r) ins outs trailer
    /\ Namespace r = ns /\ RpcComment r = Comment l
    /\ Forall2 (fun i p => parseArg i = Returned p)
               (strings.Split ins Comma) (InputParameters r)
    /\ Forall2 (fun i p => parseArg i = Returned p)
               (strings.Split outs Comma) (ReturnParameters r)
    /\ Z.of_nat (List.length (InputParameters r)) = 1 + strings.Count ins Comma
    /\ Z.of_nat (List.length (ReturnParameters r)) = 1 + strings.Count outs Comma
    /\ (Token l = Semicolon -> sc' = sc /\ Options r = []).
Proof.
  intros H. apply Visit_returned in H
    as (whole & ins & outs & trailer & Ev & Hc & N & C & Fi & Fo & Hs).
  exists whole, ins, outs, trailer. repeat split; auto; try (now apply Hs).
  - rewrite <- (Forall2_length Fi). apply Split_length.
  - rewrite <- (Forall2_length Fo). apply Split_length.
Qed.

Lemma Visit_returns_witness :
  exists whole ins outs trailer,
    FindStringSubmatch RpcLinePattern
                       "rpc List ( Query , stream Page ) returns (stream Item);" =
      [whole; "List"; ins; outs; trailer]
    /\ captured "rpc List ( Query , stream Page ) returns (stream Item);"
                whole "List" ins outs trailer
    /\ "pkg.Svc" = "pkg.Svc" /\ @None string = None
    /\ Forall2 (fun i p => parseArg i = Returned p) (strings.Split ins Comma)
               [NewParameter false "Query"; NewParameter false "stream Page"]
    /\ Forall2 (fun i p => parseArg i = Returned p) (strings.Split outs Comma)
               [NewParameter true "Item"]
    /\ 2 = 1 + strings.Count ins Comma
    /\ 1 = 1 + strings.Count outs Comma
    /\ (Semicolon = Semicolon ->
        [line "// next" NoToken] = [line "// next" NoToken] /\ @nil RpcOption = []).
Proof.
  exact (Visit_returns 1 [line "// next" NoToken]
           (line "rpc List ( Query , stream Page ) returns (stream Item);" Semicolon)
           "pkg.Svc"
           (MkRpc "pkg.Svc" "List" None
                  [NewParameter false "Query"; NewParameter false "stream Page"]
                  [NewParameter true "Item"] [])
           [line "// next" NoToken] eq_refl).
Defined.

(** X10.  Once an option line has started the inner loop, the token
    that closes a block is not looked at: every line that is appended
    and has not the statement-end token goes into the body of the
    option, the line that closes the block among them.  The call then
    ends at the next line that begins with rpc, message or service; when
    this line is a declaration it is visited by the delegate and its Rpc
    is dropped, so the source is left after the block of that next
    declaration. *)
Theorem block_close_not_seen fuel rv (l : Line) ns out (opt : Line) o
        (ls : list Line) (next : Line) (sc : Scanner) r2 sc' :
  declaration rv l ns = Returned out ->
  token_eqb (Token l) Semicolon = false ->
  token_eqb (Token opt) CloseBrace = false ->
  strings.HasPrefix (Syntax opt) "option" = true ->
  optionStart opt = Returned o ->
  forallb unended ls = true ->
  startsDeclaration next = true ->
  CanVisit NewRpcVisitor next = true ->
  Visit fuel NewRpcVisitor sc next ns = Returned (r2, sc') ->
  Visit (S fuel) rv (opt :: ls ++ next :: sc)%list l ns =
  Returned (flushOption ns out (optionName o) (optionBody o ++ text ls), sc').
Proof.
  intros Hd Hl Hc Ho Hs Hls Hn Hv Hr.
  change (opt :: ls ++ next :: sc)%list with ([] ++ opt :: (ls ++ next :: sc))%list.
  rewrite (Visit_option_line fuel rv l ns out [] opt _ Hd Hl eq_refl Hc Ho), Hs.
  cbn [bind]. rewrite accumulate_run by now apply accumulating_unended.
  now rewrite accumulate_cons, Hn, Hv, Hr.
Qed.

Lemma block_close_not_seen_witness :
  Visit 2 NewRpcVisitor
        [line "option (deadline) = 5;" Semicolon; line "}" CloseBrace;
         line "rpc Second(A) returns (B);" Semicolon;
         line "rpc Third(A) returns (B);" Semicolon]
        (line "rpc First(A) returns (B) {" OpenBrace) "pkg" =
  Returned (MkRpc "pkg" "First" None [NewParameter false "A"] [NewParameter false "B"]
                  [NewRpcOption "pkg.First" "deadline" EmptyString "5;}"],
            [line "rpc Third(A) returns (B);" Semicolon]).
Proof.
  exact (block_close_not_seen 1 NewRpcVisitor
           (line "rpc First(A) returns (B) {" OpenBrace) "pkg"
           (MkRpc "pkg" "First" None [NewParameter false "A"] [NewParameter false "B"] [])
           (line "option (deadline) = 5;" Semicolon)
           {| optionName := "deadline"; optionBody := "5;"; braceCount := 0 |}
           [line "}" CloseBrace] (line "rpc Second(A) returns (B);" Semicolon)
           [line "rpc Third(A) returns (B);" Semicolon]
           (MkRpc "pkg" "Second" None [NewParameter false "A"] [NewParameter false "B"] [])
           [line "rpc Third(A) returns (B);" Semicolon]
           eq_refl eq_refl eq_refl eq_refl eq_refl eq_refl eq_refl eq_refl eq_refl).
Defined.

(** X11.  A call that returns before the end of the source has read
    only the lines it pulled: with any other lines after them, the end
    of the source included, it returns the same Rpc and leaves those
    lines. *)
Theorem Visit_local fuel rv (pulled rest : list Line) (l : Line) ns r :
  Visit fuel rv (pulled ++ rest)%list l ns = Returned (r, rest) ->
  rest <> [] ->
  forall other, Visit fuel rv (pulled ++ other)%list l ns = Returned (r, other).
Proof. apply Visit_local_all. Qed.

Lemma Visit_local_witness :
  Visit 1 NewRpcVisitor (httpOption ++ [])%list
        (line "rpc Create(Request) returns (Response) {" OpenBrace) "pkg" =
  Returned (MkRpc "pkg" "Create" None [NewParameter false "Request"]
                  [NewParameter false "Response"]
                  [NewRpcOption "pkg.Create" "google.api.http" EmptyString httpBody],
            []).
Proof.
  refine (Visit_local 1 NewRpcVisitor httpOption [line "rpc Next(A) returns (B);" Semicolon]
            (line "rpc Create(Request) returns (Response) {" OpenBrace) "pkg"
            (MkRpc "pkg" "Create" None [NewParameter false "Request"]
                   [NewParameter false "Response"]
                   [NewRpcOption "pkg.Create" "google.api.http" EmptyString httpBody])
            eq_refl _ []).
  discriminate.
Defined.

(** X12.  On a block made of lines that the outer loop passes over and
    of option statements that are each completed, by a line with the
    statement-end token at a brace balance of zero or by a bare
    terminator, followed by the line that closes the block, [Visit]
    returns the Rpc of the declaration with one option for each
    statement whose body is not blank, in their order, and leaves the
    source after the closing line; the delegate is not called. *)
Theorem completed_block fuel rv (l : Line) ns out (items : list (Line + OptionLines))
        r (close : Line) (sc : Scanner) :
  declaration rv l ns = Returned out ->
  token_eqb (Token l) Semicolon = false ->
  blockOptions ns items out = Some r ->
  Token close = CloseBrace ->
  Visit (S fuel) rv (blockLines items ++ close :: sc)%list l ns = Returned (r, sc).
Proof.
  intros Hd Hl Hb Hc. rewrite Visit_S, Hd. cbn [bind]. rewrite Hl.
  rewrite (scanBlock_items _ ns items out r _ Hb).
  rewrite scanBlock_cons, Hc. reflexivity.
Qed.

Lemma completed_block_witness :
  Visit 1 NewRpcVisitor
        [line "// two options" NoToken;
         line "option (google.api.http) = {" OpenBrace;
         line ("get: " ++ quote ++ "/v1/x" ++ quote) NoToken;
         line "};" Semicolon;
         line "option (deadline) = " NoToken;
         line "5" NoToken;
         line ";" Semicolon;
         line "}" CloseBrace;
         line "rpc Next(A) returns (B);" Semicolon]
        (line "rpc Get(A) returns (B) {" OpenBrace) "pkg" =
  Returned (MkRpc "pkg" "Get" None [NewParameter false "A"] [NewParameter false "B"]
                  [NewRpcOption "pkg.Get" "google.api.http" EmptyString
                                ("{" ++ "get: " ++ quote ++ "/v1/x" ++ quote ++ "};");
                   NewRpcOption "pkg.Get" "deadline" EmptyString "5"],
            [line "rpc Next(A) returns (B);" Semicolon]).
Proof.
  exact (completed_block 0 NewRpcVisitor (line "rpc Get(A) returns (B) {" OpenBrace) "pkg"
           (MkRpc "pkg" "Get" None [NewParameter false "A"] [NewParameter false "B"] [])
           [inl (line "// two options" NoToken);
            inr {| first := line "option (google.api.http) = {" OpenBrace;
                   middle := [line ("get: " ++ quote ++ "/v1/x" ++ quote) NoToken];
                   last := line "};" Semicolon |};
            inr {| first := line "option (deadline) = " NoToken;
                   middle := [line "5" NoToken];
                   last := line ";" Semicolon |}]
           (MkRpc "pkg" "Get" None [NewParameter false "A"] [NewParameter false "B"]
                  [NewRpcOption "pkg.Get" "google.api.http" EmptyString
                                ("{" ++ "get: " ++ quote ++ "/v1/x" ++ quote ++ "};");
                   NewRpcOption "pkg.Get" "deadline" EmptyString "5"])
           (line "}" CloseBrace) [line "rpc Next(A) returns (B);" Semicolon]
           eq_refl eq_refl eq_refl eq_refl).
Defined.

(** X13.  The type name of every parameter that [ParseInArgs] or
    [ParseReturnArgs] adds holds no comma, and neither starts nor ends
    with white space: trimming it again changes nothing.  The
    parameters that the Rpc had before are kept as they were. *)
Theorem type_names_trimmed :
  (forall values rpc rpc',
      ParseInArgs values rpc = Returned rpc' ->
      exists ps,
        InputParameters rpc' = (InputParameters rpc ++ ps)%list
        /\ Forall (fun p => trimmed (TypeName p)) ps)
  /\ (forall values rpc rpc',
         ParseReturnArgs values rpc = Returned rpc' ->
         exists ps,
           ReturnParameters rpc' = (ReturnParameters rpc ++ ps)%list
           /\ Forall (fun p => trimmed (TypeName p)) ps).
Proof.
  split; intros values rpc rpc' H.
  - destruct (ParseInArgs_appends values rpc rpc' H) as (v & ps & _ & Hps & _ & ->).
    exists ps. split; [reflexivity|].
    apply (Forall2_trimmed (strings.Split v Comma) ps); [apply Split_pieces | exact Hps].
  - destruct (ParseReturnArgs_appends values rpc rpc' H) as (v & ps & _ & Hps & _ & ->).
    exists ps. split; [reflexivity|].
    apply (Forall2_trimmed (strings.Split v Comma) ps); [apply Split_pieces | exact Hps].
Qed.

Lemma type_names_trimmed_witness :
  exists ps,
    InputParameters
      (MkRpc "pkg" "F" None
             [NewParameter false " Z "; NewParameter false "A";
              NewParameter true "pkg.B"; NewParameter false EmptyString] [] []) =
    (InputParameters (MkRpc "pkg" "F" None [NewParameter false " Z "] [] []) ++ ps)%list
    /\ Forall (fun p => trimmed (TypeName p)) ps.
Proof.
  exact (proj1 type_names_trimmed
           ["rpc F( A ,stream  pkg.B , ) returns (C)"; "F"; " A ,stream  pkg.B , "; "C"; ""]
           (MkRpc "pkg" "F" None [NewParameter false " Z "] [] [])
           (MkRpc "pkg" "F" None
                  [NewParameter false " Z "; NewParameter false "A";
                   NewParameter true "pkg.B"; NewParameter false EmptyString] [] [])
           eq_refl).
Defined.
